(** * Asterian multiplayer relay: a shallow embedding of [server.js]

    The relay keeps one registry ([players], a JavaScript [Map] from
    WebSocket object to player record), onboards connections through a
    [join] message, re-broadcasts typed messages and evicts silent
    sessions on a heartbeat tick.  This file embeds the handlers of
    [server.js] as functions on an explicit server state and proves the
    properties of the relay's specification about them.

    Conventions of the embedding:
    - a JavaScript string is the list of its UTF-16 code units;
    - a JavaScript number is an extended rational ([NaN], the two
      infinities, or a finite value).  Every double is such a value, and
      the handlers only test, compare and copy numbers, so no rounding
      is involved;
    - objects that are shared by reference (the player record held both
      by the connection's closure and by the registry) live in a heap
      and are named by their address;
    - a handler that throws an uncaught [TypeError] returns [None];
    - [console.log] calls are left out. *)

From Stdlib Require Import ZArith QArith List Ascii String Lia.
From stdpp Require Import base option list.
Import ListNotations.

Local Open Scope nat_scope.

(** ** Strings *)

Module JS.

Abbreviation jsstr := (list N) (only parsing).

(** The code units of an ASCII literal. *)
Definition lit (s : string) : jsstr :=
  map N_of_ascii (list_ascii_of_string s).

(** [s.slice(0, n)] *)
Definition slice0 {A : Type} (n : nat) (s : list A) : list A := take n s.

(** [s.slice(a, b)] for [a <= b]. *)
Definition slice {A : Type} (a b : nat) (s : list A) : list A :=
  take (b - a) (drop a s).

Definition in_class (cls : list N) (c : N) : bool := existsb (N.eqb c) cls.

(** [s.replace(/[cls]/g, '')]: every code unit of the class is removed. *)
Definition strip (cls : list N) (s : jsstr) : jsstr :=
  List.filter (fun c => negb (in_class cls c)) s.

(** ** Numbers *)

Inductive num :=
| NaN
| NegInf
| Fin (q : Q)
| PosInf.

(** [ToBoolean] on a number: [NaN] and zero are falsy. *)
Definition num_truthy (n : num) : bool :=
  match n with
  | NaN => false
  | Fin q => negb (Qeq_bool q 0)
  | NegInf | PosInf => true
  end.

(** [a || b] when both sides are numbers. *)
Definition num_or (a b : num) : num := if num_truthy a then a else b.

(** [Math.min(a, b)] *)
Definition Math_min (a b : num) : num :=
  match a, b with
  | NaN, _ | _, NaN => NaN
  | NegInf, _ | _, NegInf => NegInf
  | PosInf, y => y
  | x, PosInf => x
  | Fin p, Fin q => if Qle_bool p q then a else b
  end.

(** The order of JavaScript numbers; nothing compares with [NaN]. *)
Definition num_le (a b : num) : Prop :=
  match a, b with
  | NaN, _ | _, NaN => False
  | NegInf, _ => True
  | _, PosInf => True
  | Fin p, Fin q => (p <= q)%Q
  | _, _ => False
  end.

(** ** Values: what [JSON.parse] returns, and [undefined] for a missing
    property. *)

#[warnings="-register-all"]
Inductive value :=
| VUndef
| VNull
| VBool (b : bool)
| VNum (n : num)
| VStr (s : jsstr)
| VArr (elems : list value)
| VObj (props : list (jsstr * value)).

Definition jsstr_eqb (a b : jsstr) : bool := bool_decide (a = b).

Fixpoint assoc (k : jsstr) (ps : list (jsstr * value)) : value :=
  match ps with
  | [] => VUndef
  | (k', v) :: r => if jsstr_eqb k' k then v else assoc k r
  end.

(** [m.k] for one of the field names the handlers read.  None of them
    exists on a primitive, an array or [Object.prototype], so only an
    own property of a parsed object yields a value.  (Reading a
    property of [null] or [undefined] throws; see [on_message].) *)
Definition prop (m : value) (k : string) : value :=
  match m with
  | VObj ps => assoc (lit k) ps
  | _ => VUndef
  end.

Definition ToBoolean (v : value) : bool :=
  match v with
  | VUndef | VNull => false
  | VBool b => b
  | VNum n => num_truthy n
  | VStr s => negb (jsstr_eqb s [])
  | VArr _ | VObj _ => true
  end.

(** [a || b] *)
Definition js_or (a b : value) : value := if ToBoolean a then a else b.

(** [v === 'k'] *)
Definition is_str (v : value) (k : string) : bool :=
  match v with
  | VStr s => jsstr_eqb s (lit k)
  | _ => false
  end.

End JS.
Export JS.

(** ** Sanitisation of names and chat text *)

Definition name_denied : list N := [60; 62; 38; 34; 39]%N.  (* < > & dquote quote *)
Definition chat_denied : list N := [60; 62; 38]%N.          (* < > & *)

(** [s.slice(0, 16)] followed by the global replace of the class
    [<], [>], [&], double quote, single quote by the empty string. *)
Definition sanitize_name (s : jsstr) : jsstr := strip name_denied (slice0 16 s).

(** [s.slice(0, 200)] followed by the global replace of [<], [>], [&]
    by the empty string. *)
Definition sanitize_chat (s : jsstr) : jsstr := strip chat_denied (slice0 200 s).

(** [(v || dflt).slice(0, 16)] with the name class stripped: a string
    is sanitised; an array survives [slice] but has no [replace], and
    any other truthy value has no [slice], so both throw. *)
Definition name_field (v : value) : option jsstr :=
  match js_or v (VStr (lit "Player")) with
  | VStr s => Some (sanitize_name s)
  | _ => None
  end.

(** [(v || '').slice(0, 200)] with the chat class stripped. *)
Definition text_field (v : value) : option jsstr :=
  match js_or v (VStr []) with
  | VStr s => Some (sanitize_chat s)
  | _ => None
  end.

(** [(v || '').slice(0, 64)]: strings and arrays both have [slice]. *)
Definition itemId_field (v : value) : option value :=
  match js_or v (VStr []) with
  | VStr s => Some (VStr (slice0 64 s))
  | VArr l => Some (VArr (slice0 64 l))
  | _ => None
  end.

(** [Math.random().toString(36).slice(2, 10)], given the base-36 text
    [rnd] of the random number drawn. *)
Definition genId (rnd : jsstr) : jsstr := slice 2 10 rnd.

(** ** Server state *)

Definition MAX_PLAYERS : nat := 20.
Definition HEARTBEAT_INTERVAL : Z := 15000.
Definition HEARTBEAT_TIMEOUT : Z := 30000.

(** A WebSocket object, numbered in the order the transport accepts. *)
Abbreviation handle := nat (only parsing).
(** The address of a player record. *)
Abbreviation loc := nat (only parsing).

Record stats_t := Stats {
  level : num;
  combatStyle : value;
  hp : num;
  maxHp : num;
  area : value
}.

Record pdata := PData {
  id : jsstr;
  name : jsstr;
  x : num;
  z : num;
  ry : num;
  moving : bool;
  equipment : value;
  stats : stats_t;
  lastPing : Z
}.

(** One element of the [players] array of a [welcome] message. *)
Inductive entry :=
| Entry (e_id e_name : jsstr) (e_x e_z e_ry : num) (e_moving : bool)
        (e_equipment : value) (e_stats : stats_t).

Definition entry_of (op : pdata) : entry :=
  Entry (id op) (name op) (x op) (z op) (ry op) (moving op) (equipment op) (stats op).

(** Outbound messages, before [JSON.stringify]. *)
Inductive payload :=
| PError (msg : jsstr)
| PWelcome (wid : jsstr) (roster : list entry)
| PJoin (jid jname : jsstr)
| PMove (mid : jsstr) (mx mz mry : num) (mmoving : bool)
| PChat (cid cname text : jsstr)
| PEquip (eid : jsstr) (equip : value)
| PStats (sid : jsstr) (st : stats_t)
| PAttack (aid aname : jsstr) (enemyId : value) (damage : num) (style : value) (ax az : num)
| PEnemyKill (kid kname : jsstr) (kenemy : value)
| PGroundDrop (gid gname : jsstr) (gx gz : num) (itemId : value) (quantity : num)
| PLeave (lid : jsstr)
| PPing.

(** What the server does to the transport. *)
Inductive action :=
| Send (ws : handle) (data : payload)
| Close (ws : handle)
| Terminate (ws : handle).

(** The variables [joined] and [pData] captured by the listeners of one
    accepted connection. *)
Record closure := Closure {
  joined : bool;
  pData : option loc
}.

(** A WebSocket object: its [readyState] and, once the connection
    handler has registered them, the closure of its listeners. *)
Record socket := Socket {
  readyState : Z;
  listeners : option closure
}.

Record server := Server {
  sockets : list socket;
  heap : list pdata;
  players : list (handle * loc)    (* the Map, in insertion order *)
}.

Definition init : server := Server [] [] [].

(** *** The [Map] operations used on [players] *)

Definition map_has (ws : handle) (m : list (handle * loc)) : bool :=
  existsb (fun e => Nat.eqb (fst e) ws) m.

Definition map_set (ws : handle) (l : loc) (m : list (handle * loc)) : list (handle * loc) :=
  if map_has ws m
  then map (fun e => if Nat.eqb (fst e) ws then (ws, l) else e) m
  else m ++ [(ws, l)].

Definition map_delete (ws : handle) (m : list (handle * loc)) : list (handle * loc) :=
  List.filter (fun e => negb (Nat.eqb (fst e) ws)) m.

(** *** Accessors and updates *)

Definition closure_of (s : server) (ws : handle) : option closure :=
  k ← sockets s !! ws; listeners k.

Definition is_open (s : server) (ws : handle) : bool :=
  match sockets s !! ws with
  | Some k => Z.eqb (readyState k) 1
  | None => false
  end.

Definition set_closure (ws : handle) (c : closure) (s : server) : server :=
  Server (alter (fun k => Socket (readyState k) (Some c)) ws (sockets s))
         (heap s) (players s).

Definition set_readyState (ws : handle) (r : Z) (s : server) : server :=
  Server (alter (fun k => Socket r (listeners k)) ws (sockets s))
         (heap s) (players s).

Definition set_players (m : list (handle * loc)) (s : server) : server :=
  Server (sockets s) (heap s) m.

(** Assignment to fields of the record at address [l]. *)
Definition update (l : loc) (f : pdata -> pdata) (s : server) : server :=
  Server (sockets s) (alter f l (heap s)) (players s).

Definition set_position (nx nz nry : num) (m : bool) (p : pdata) : pdata :=
  PData (id p) (name p) nx nz nry m (equipment p) (stats p) (lastPing p).

Definition set_equipment (e : value) (p : pdata) : pdata :=
  PData (id p) (name p) (x p) (z p) (ry p) (moving p) e (stats p) (lastPing p).

Definition set_stats (st : stats_t) (p : pdata) : pdata :=
  PData (id p) (name p) (x p) (z p) (ry p) (moving p) (equipment p) st (lastPing p).

Definition set_lastPing (t : Z) (p : pdata) : pdata :=
  PData (id p) (name p) (x p) (z p) (ry p) (moving p) (equipment p) (stats p) t.

(** *** [broadcast] and [sendTo] *)

Definition excluded (ws : handle) (exclude : option handle) : bool :=
  match exclude with
  | Some e => Nat.eqb ws e
  | None => false
  end.

Definition broadcast (s : server) (data : payload) (exclude : option handle) : list action :=
  flat_map (fun e =>
              if negb (excluded (fst e) exclude) && is_open s (fst e)
              then [Send (fst e) data] else [])
           (players s).

Definition sendTo (s : server) (ws : handle) (data : payload) : list action :=
  if is_open s ws then [Send ws data] else [].

(** ** The handlers *)

(** The outcome of [JSON.parse(raw)]. *)
Inductive parsed :=
| SyntaxError
| Parsed (msg : value).

Section Handlers.

(** The two conversions of the language that the handlers reach through
    [Number(v)] and that are not computed here: the numeric reading of a
    string, and the string an array or object converts to ([None] when
    the conversion throws). *)
Variable StringToNumber : jsstr -> num.
Variable ToPrimitive : value -> option jsstr.

(** [Number(v)] *)
Definition Number (v : value) : option num :=
  match v with
  | VUndef => Some NaN
  | VNull => Some (Fin 0)
  | VBool b => Some (Fin (if b then 1 else 0))
  | VNum n => Some n
  | VStr t => Some (StringToNumber t)
  | VArr _ | VObj _ => StringToNumber <$> ToPrimitive v
  end.

(** [Number(v) || d] *)
Definition number_or (v : value) (d : Q) : option num :=
  n ← Number v; Some (num_or n (Fin d)).

(** [Math.min(Number(v) || 1, 1000)] *)
Definition quantity_field (v : value) : option num :=
  n ← number_or v 1; Some (Math_min n (Fin 1000)).

Definition default_stats : stats_t :=
  Stats (Fin 1) (VStr (lit "nano")) (Fin 100) (Fin 100) (VStr (lit "station-hub")).

(** The [existing] array built for [welcome]. *)
Definition existing (s : server) (ws : handle) : list entry :=
  flat_map (fun e =>
              if Nat.eqb (fst e) ws then []
              else match heap s !! snd e with
                   | Some op => [entry_of op]
                   | None => []
                   end)
           (players s).

(** The record a [join] creates. *)
Definition new_player (i nm : jsstr) (now : Z) : pdata :=
  PData i nm (Fin 0) (Fin 0) (Fin 0) false (VObj []) default_stats now.

(** [pData = {...}; players.set(ws, pData); joined = true]: the record
    is allocated, entered in the Map under [ws], and the closure of
    [ws] keeps its address. *)
Definition enroll (ws : handle) (pd : pdata) (s : server) : server :=
  let l := length (heap s) in
  set_closure ws (Closure true (Some l))
    (Server (sockets s) (heap s ++ [pd]) (map_set ws l (players s))).

Definition on_join (ws : handle) (msg : value) (rnd : jsstr) (now : Z) (s : server)
  : option (server * list action) :=
  nm ← name_field (prop msg "name");
  let pd := new_player (genId rnd) nm now in
  let s' := enroll ws pd s in
  Some (s', sendTo s' ws (PWelcome (id pd) (existing s' ws))
            ++ broadcast s' (PJoin (id pd) (name pd)) (Some ws)).

(** The record behind the closure variable [pData]; dereferencing
    [null] throws. *)
Definition deref (c : closure) (s : server) : option (loc * pdata) :=
  l ← pData c; pd ← heap s !! l; Some (l, pd).

Definition on_move (ws : handle) (c : closure) (msg : value) (s : server)
  : option (server * list action) :=
  '(l, _) ← deref c s;
  nx ← number_or (prop msg "x") 0;
  nz ← number_or (prop msg "z") 0;
  nry ← number_or (prop msg "ry") 0;
  let s1 := update l (set_position nx nz nry (ToBoolean (prop msg "moving"))) s in
  '(_, pd) ← deref c s1;
  Some (s1, broadcast s1 (PMove (id pd) (x pd) (z pd) (ry pd) (moving pd)) (Some ws)).

Definition on_chat (ws : handle) (c : closure) (msg : value) (s : server)
  : option (server * list action) :=
  text ← text_field (prop msg "text");
  if 0 <? length text
  then '(_, pd) ← deref c s;
       Some (s, broadcast s (PChat (id pd) (name pd) text) None)
  else Some (s, []).

Definition on_equip (ws : handle) (c : closure) (msg : value) (s : server)
  : option (server * list action) :=
  '(l, _) ← deref c s;
  let s1 := update l (set_equipment (js_or (prop msg "equipment") (VObj []))) s in
  '(_, pd) ← deref c s1;
  Some (s1, broadcast s1 (PEquip (id pd) (equipment pd)) (Some ws)).

Definition on_stats (ws : handle) (c : closure) (msg : value) (s : server)
  : option (server * list action) :=
  '(l, _) ← deref c s;
  lv ← number_or (prop msg "level") 1;
  h ← number_or (prop msg "hp") 100;
  mh ← number_or (prop msg "maxHp") 100;
  let st := Stats lv (js_or (prop msg "combatStyle") (VStr (lit "nano"))) h mh
                  (js_or (prop msg "area") (VStr (lit "station-hub"))) in
  let s1 := update l (set_stats st) s in
  '(_, pd) ← deref c s1;
  Some (s1, broadcast s1 (PStats (id pd) (stats pd)) (Some ws)).

Definition on_attack (ws : handle) (c : closure) (msg : value) (s : server)
  : option (server * list action) :=
  '(_, pd) ← deref c s;
  dmg ← number_or (prop msg "damage") 0;
  ax ← number_or (prop msg "x") 0;
  az ← number_or (prop msg "z") 0;
  Some (s, broadcast s (PAttack (id pd) (name pd) (prop msg "enemyId") dmg
                                (js_or (prop msg "style") (VStr (lit "nano"))) ax az)
                     (Some ws)).

Definition on_enemyKill (ws : handle) (c : closure) (msg : value) (s : server)
  : option (server * list action) :=
  '(_, pd) ← deref c s;
  Some (s, broadcast s (PEnemyKill (id pd) (name pd) (prop msg "enemyId")) (Some ws)).

Definition on_groundDrop (ws : handle) (c : closure) (msg : value) (s : server)
  : option (server * list action) :=
  '(_, pd) ← deref c s;
  gx ← number_or (prop msg "x") 0;
  gz ← number_or (prop msg "z") 0;
  item ← itemId_field (prop msg "itemId");
  q ← quantity_field (prop msg "quantity");
  Some (s, broadcast s (PGroundDrop (id pd) (name pd) gx gz item q) (Some ws)).

Definition on_pong (c : closure) (now : Z) (s : server) : option (server * list action) :=
  '(l, _) ← deref c s;
  Some (update l (set_lastPing now) s, []).

(** [msg.type]: reading a property of [null] (or [undefined]) throws. *)
Definition type_of (msg : value) : option value :=
  match msg with
  | VNull | VUndef => None
  | _ => Some (prop msg "type")
  end.

(** The ['message'] listener of connection [ws].  [rnd] and [now] are
    what [Math.random] and [Date.now] return if the handler calls them. *)
Definition on_message (ws : handle) (raw : parsed) (rnd : jsstr) (now : Z) (s : server)
  : option (server * list action) :=
  match closure_of s ws, raw with
  | None, _ => Some (s, [])
  | Some _, SyntaxError => Some (s, [])
  | Some c, Parsed msg =>
      ty ← type_of msg;
      if is_str ty "join" && negb (joined c) then on_join ws msg rnd now s
      else if negb (joined c) then Some (s, [])
      else if is_str ty "move" then on_move ws c msg s
      else if is_str ty "chat" then on_chat ws c msg s
      else if is_str ty "equip" then on_equip ws c msg s
      else if is_str ty "stats" then on_stats ws c msg s
      else if is_str ty "attack" then on_attack ws c msg s
      else if is_str ty "enemyKill" then on_enemyKill ws c msg s
      else if is_str ty "groundDrop" then on_groundDrop ws c msg s
      else if is_str ty "pong" then on_pong c now s
      else Some (s, [])
  end.

(** The ['close'] listener. *)
Definition on_close (ws : handle) (s : server) : server * list action :=
  match closure_of s ws with
  | None => (s, [])
  | Some c =>
      let out := match deref c s with
                 | Some (_, pd) => broadcast s (PLeave (id pd)) None
                 | None => []
                 end in
      (set_players (map_delete ws (players s)) s, out)
  end.

(** The ['error'] listener. *)
Definition on_error (ws : handle) (s : server) : server * list action :=
  match closure_of s ws with
  | None => (s, [])
  | Some _ => (set_players (map_delete ws (players s)) s, [])
  end.

(** The ['connection'] handler, run on the freshly accepted socket. *)
Definition on_connection (ws : handle) (s : server) : server * list action :=
  if MAX_PLAYERS <=? length (players s)
  then (s, sendTo s ws (PError (lit "Server full")) ++ [Close ws])
  else (set_closure ws (Closure false None) s, []).

(** The heartbeat callback.  The loop walks the entries of the Map; the
    only entry removed while it runs is the one being visited. *)
Fixpoint heartbeat_loop (now : Z) (entries : list (handle * loc)) (s : server)
  : server * list action :=
  match entries with
  | [] => (s, [])
  | (ws, l) :: rest =>
      match heap s !! l with
      | Some pd =>
          if (HEARTBEAT_TIMEOUT <? now - lastPing pd)%Z
          then let '(s', out) :=
                 heartbeat_loop now rest (set_players (map_delete ws (players s)) s) in
               (s', Terminate ws :: out)
          else let '(s', out) := heartbeat_loop now rest s in
               (s', sendTo s ws PPing ++ out)
      | None => heartbeat_loop now rest s
      end
  end.

Definition heartbeat (now : Z) (s : server) : server * list action :=
  heartbeat_loop now (players s) s.

(** ** The event loop *)

(** What the transport and the timer deliver.  The transport sets
    [readyState] before it emits: 1 (OPEN) on a new connection, 2
    (CLOSING) once either side starts closing or an error occurs, 3
    (CLOSED) when it emits ['close'].  Nothing is assumed about the
    order or number of events of a connection; the transport emits
    ['close'] once per connection, and the properties that rest on it
    say so. *)
Inductive event :=
| EvConnection
| EvMessage (ws : handle) (raw : parsed) (rnd : jsstr) (now : Z)
| EvClosing (ws : handle)
| EvError (ws : handle)
| EvClose (ws : handle)
| EvTick (now : Z).

Definition accept (s : server) : server :=
  Server (sockets s ++ [Socket 1 None]) (heap s) (players s).

Definition step (e : event) (s : server) : option (server * list action) :=
  match e with
  | EvConnection => Some (on_connection (length (sockets s)) (accept s))
  | EvMessage ws raw rnd now => on_message ws raw rnd now s
  | EvClosing ws => Some (set_readyState ws 2 s, [])
  | EvError ws => Some (on_error ws (set_readyState ws 2 s))
  | EvClose ws => Some (on_close ws (set_readyState ws 3 s))
  | EvTick now => Some (heartbeat now s)
  end.

(** A run of the loop; [None] when a handler threw. *)
Fixpoint run (evs : list event) (s : server) : option (server * list action) :=
  match evs with
  | [] => Some (s, [])
  | e :: rest =>
      '(s1, o1) ← step e s;
      '(s2, o2) ← run rest s1;
      Some (s2, o1 ++ o2)
  end.

End Handlers.

(** ** Notions used to state the properties *)

(** The connections that are registered, in the order of the Map. *)
Definition keys (s : server) : list handle := map fst (players s).

(** The id held by the record at address [l]. *)
Definition id_at (s : server) (l : loc) : jsstr :=
  match heap s !! l with
  | Some pd => id pd
  | None => []
  end.

(** The ids of the registered sessions, in the order of the Map. *)
Definition live_ids (s : server) : list jsstr :=
  map (fun e => id_at s (snd e)) (players s).

(** What every state the loop can reach satisfies: the Map has one
    entry per key; the value of an entry is the record its connection's
    closure holds; a closure is either that of a pending connection or
    that of a joined one, whose record exists. *)
Record wf (s : server) : Prop := WF {
  wf_keys : NoDup (keys s);
  wf_entry : forall ws l, (ws, l) ∈ players s ->
                          closure_of s ws = Some (Closure true (Some l));
  wf_closure : forall ws c, closure_of s ws = Some c ->
                            c = Closure false None
                            \/ exists l, c = Closure true (Some l) /\ l < length (heap s)
}.

(** The heartbeat's test [now - pd.lastPing > HEARTBEAT_TIMEOUT] on an
    entry of the Map. *)
Definition timed_out (now : Z) (h : list pdata) (e : handle * loc) : bool :=
  match h !! snd e with
  | Some pd => (HEARTBEAT_TIMEOUT <? now - lastPing pd)%Z
  | None => false
  end.

(** How many [leave] messages with id [i] a list of actions sends to [w]. *)
Definition is_leave_to (w : handle) (i : jsstr) (a : action) : bool :=
  match a with
  | Send w' (PLeave j) => Nat.eqb w' w && jsstr_eqb j i
  | _ => false
  end.

Definition leaves_to (w : handle) (i : jsstr) (out : list action) : nat :=
  length (List.filter (is_leave_to w i) out).

(** The ids that [genId] yields for the [join] messages of a run. *)
Definition join_draw (e : event) : list jsstr :=
  match e with
  | EvMessage _ (Parsed msg) rnd _ =>
      if is_str (prop msg "type") "join" then [genId rnd] else []
  | _ => []
  end.

Definition draws (evs : list event) : list jsstr := flat_map join_draw evs.

(** Payload kinds. *)
Definition is_chat (d : payload) : bool :=
  match d with PChat _ _ _ => true | _ => false end.

Definition is_welcome (d : payload) : bool :=
  match d with PWelcome _ _ => true | _ => false end.

(** The effect of a relayed message: the sender's record may change,
    though never its [id] or [name], and at most one payload, neither
    a [chat] nor a [welcome], goes to the other sessions. *)
Definition relayed (ws : handle) (s s' : server) (out : list action) : Prop :=
  (s' = s \/ exists l f, s' = update l f s /\ forall p, id (f p) = id p /\ name (f p) = name p)
  /\ (out = [] \/ exists d, is_chat d = false /\ is_welcome d = false
                            /\ out = broadcast s d (Some ws)).

(** The states the event loop can be in. *)
Definition reachable (S2N : jsstr -> num) (TP : value -> option jsstr) (s : server) : Prop :=
  exists evs out, run S2N TP evs init = Some (s, out).

(** The entries a heartbeat at [now] leaves in the Map. *)
Definition survivors (now : Z) (s : server) : list (handle * loc) :=
  List.filter (fun e => negb (timed_out now (heap s) e)) (players s).

(** ** Worked inputs *)

(** The messages below carry numbers as numbers only, so the two
    conversions that the handlers take as parameters are never
    consulted; these instances fix them for the runs. *)
Definition text_to_NaN : jsstr -> num := fun _ => NaN.
Definition no_primitive : value -> option jsstr := fun _ => None.

Definition msg_join (n : string) : parsed :=
  Parsed (VObj [(lit "type", VStr (lit "join")); (lit "name", VStr (lit n))]).

Definition msg_join_anonymous : value :=
  VObj [(lit "type", VStr (lit "join"))].

Definition msg_chat (t : string) : value :=
  VObj [(lit "type", VStr (lit "chat")); (lit "text", VStr (lit t))].

Definition msg_move (mx mz mry : Q) (m : bool) : parsed :=
  Parsed (VObj [(lit "type", VStr (lit "move")); (lit "x", VNum (Fin mx));
                (lit "z", VNum (Fin mz)); (lit "ry", VNum (Fin mry));
                (lit "moving", VBool m)]).

Definition msg_drop (q : value) : value :=
  VObj [(lit "type", VStr (lit "groundDrop")); (lit "x", VNum (Fin 3));
        (lit "z", VNum (Fin 4)); (lit "itemId", VStr (lit "ore"));
        (lit "quantity", q)].


(** The state a run from [init] ends in ([init] if a handler threw). *)
Definition state_after (evs : list event) : server :=
  match run text_to_NaN no_primitive evs init with
  | Some (s, _) => s
  | None => init
  end.

Definition sent_by (evs : list event) (s : server) : list action :=
  match run text_to_NaN no_primitive evs s with
  | Some (_, out) => out
  | None => []
  end.

(** Alice, then Bob, connect and join. *)
Definition lobby_events : list event :=
  [EvConnection; EvMessage 0 (msg_join "Alice") (lit "0.4fzyo82mvyr") 1000;
   EvConnection; EvMessage 1 (msg_join "Bob") (lit "0.k3n9x71qpl") 20000].

Definition lobby : server := state_after lobby_events.

Definition alice : pdata := new_player (lit "4fzyo82m") (lit "Alice") 1000.

(** A third connection is accepted while Alice and Bob are in. *)
Definition lobby_with_guest : server := state_after (lobby_events ++ [EvConnection]).

(** Two connections join with the same random draw. *)
Definition twin_events : list event :=
  [EvConnection; EvMessage 0 (msg_join "Alice") (lit "0.i") 1000;
   EvConnection; EvMessage 1 (msg_join "Bob") (lit "0.i") 2000].

(** Twenty-one connections are accepted while the Map is empty, and
    then each of them joins. *)
Definition crowd_events : list event :=
  repeat EvConnection 21
  ++ map (fun ws => EvMessage ws (msg_join "P") (lit "0.p" ++ [N.of_nat (97 + ws)]) 0)
         (seq 0 21).


(** ** Notions used by the further properties *)

(** The record of connection [ws]: the one its closure holds. *)
Definition session (s : server) (ws : handle) : option pdata :=
  c ← closure_of s ws; '(_, pd) ← deref c s; Some pd.

(** No two connections hold the same record. *)
Definition separate (s : server) : Prop :=
  forall w1 w2 c1 c2 l,
    closure_of s w1 = Some c1 -> closure_of s w2 = Some c2 ->
    pData c1 = Some l -> pData c2 = Some l -> w1 = w2.

(** The message types that reach a branch of the listener once the
    connection has joined. *)
Definition handled_when_joined (ty : value) : bool :=
  is_str ty "move" || is_str ty "chat" || is_str ty "equip" || is_str ty "stats"
  || is_str ty "attack" || is_str ty "enemyKill" || is_str ty "groundDrop"
  || is_str ty "pong".

(** The relays that keep no state. *)
Definition stateless_type (ty : value) : bool :=
  is_str ty "chat" || is_str ty "attack" || is_str ty "enemyKill"
  || is_str ty "groundDrop".

Definition is_ping_to (w : handle) (a : action) : bool :=
  match a with
  | Send w' PPing => Nat.eqb w' w
  | _ => false
  end.

Definition msg_pong : value := VObj [(lit "type", VStr (lit "pong"))].

Definition msg_equip (e : value) : value :=
  VObj [(lit "type", VStr (lit "equip")); (lit "equipment", e)].

Definition msg_stats (lv h mh : Q) : value :=
  VObj [(lit "type", VStr (lit "stats")); (lit "level", VNum (Fin lv));
        (lit "hp", VNum (Fin h)); (lit "maxHp", VNum (Fin mh))].

Definition msg_attack (d : value) : value :=
  VObj [(lit "type", VStr (lit "attack")); (lit "enemyId", VStr (lit "rat7"));
        (lit "damage", d)].

(** Twenty clients connect and join, one after the other. *)
Definition full_house_events : list event :=
  flat_map (fun ws => [EvConnection;
                       EvMessage ws (msg_join "P") (lit "0.p" ++ [N.of_nat (97 + ws)]) 0])
           (seq 0 20).

Definition full_house : server := state_after full_house_events.

(** A move that gives x only; z is missing and ry is null. *)
Definition msg_walk : value :=
  VObj [(lit "type", VStr (lit "move")); (lit "x", VNum (Fin 5));
        (lit "ry", VNull); (lit "moving", VNum (Fin 1))].

Definition msg_drop_numbered : value :=
  VObj [(lit "type", VStr (lit "groundDrop")); (lit "itemId", VNum (Fin 7))].

Definition msg_join_numbered : value :=
  VObj [(lit "type", VStr (lit "join")); (lit "name", VNum (Fin 7))].


(** ** Notions used for the leave of an evicted session *)





(** * Properties *)

(** ** Sanitisation *)

Section Sanitizer.

Variable cls : list N.

Lemma in_class_spec c : in_class cls c = true ↔ c ∈ cls.
Proof.
  unfold in_class. rewrite existsb_exists. split.
  - intros (d & Hd & Heq). apply N.eqb_eq in Heq. subst d.
    by apply list_elem_of_In.
  - intros Hc. exists c. split; [by apply list_elem_of_In | apply N.eqb_refl].
Qed.







End Sanitizer.


(** ** The state operations *)

Lemma closure_of_lt s ws c : closure_of s ws = Some c → ws < length (sockets s).
Proof.
  unfold closure_of. destruct (sockets s !! ws) eqn:E; [|done].
  intros _. by eapply lookup_lt_Some.
Qed.

Lemma closure_of_set_closure s ws c :
  ws < length (sockets s) → closure_of (set_closure ws c s) ws = Some c.
Proof.
  intros Hlt. unfold closure_of, set_closure. simpl.
  rewrite list_lookup_alter_eq.
  destruct (lookup_lt_is_Some_2 _ _ Hlt) as [k ->]. done.
Qed.

Lemma closure_of_set_closure_ne s ws ws' c :
  ws ≠ ws' → closure_of (set_closure ws c s) ws' = closure_of s ws'.
Proof.
  intros Hne. unfold closure_of, set_closure. simpl.
  by rewrite list_lookup_alter_ne.
Qed.

Lemma closure_of_set_readyState s ws r ws' :
  closure_of (set_readyState ws r s) ws' = closure_of s ws'.
Proof.
  unfold closure_of, set_readyState. simpl.
  destruct (decide (ws = ws')) as [->|Hne].
  - rewrite list_lookup_alter_eq. destruct (sockets s !! ws'); reflexivity.
  - by rewrite list_lookup_alter_ne.
Qed.

Lemma closure_of_accept_old s ws :
  ws < length (sockets s) → closure_of (accept s) ws = closure_of s ws.
Proof. intros Hlt. unfold closure_of, accept. simpl. by rewrite lookup_app_l. Qed.

Lemma closure_of_accept_new s : closure_of (accept s) (length (sockets s)) = None.
Proof.
  unfold closure_of, accept. simpl.
  rewrite lookup_app_r; [|lia]. by rewrite Nat.sub_diag.
Qed.

Lemma is_open_set_readyState_ne s ws r w :
  ws ≠ w → is_open (set_readyState ws r s) w = is_open s w.
Proof.
  intros Hne. unfold is_open, set_readyState. simpl.
  by rewrite list_lookup_alter_ne.
Qed.

(** *** The Map *)


Lemma map_delete_keys ws m :
  map fst (map_delete ws m) = List.filter (fun w => negb (Nat.eqb w ws)) (map fst m).
Proof.
  unfold map_delete. induction m as [|[w l] m IH]; simpl; [done|].
  destruct (Nat.eqb w ws); simpl; by rewrite ?IH.
Qed.

Lemma NoDup_list_filter {A} (f : A → bool) (l : list A) :
  NoDup l → NoDup (List.filter f l).
Proof.
  induction 1 as [|a l Ha _ IH]; simpl; [constructor|].
  destruct (f a); [|done]. constructor; [|done].
  rewrite list_elem_of_In, filter_In, <- list_elem_of_In. tauto.
Qed.

Lemma map_delete_NoDup ws m : NoDup (map fst m) → NoDup (map fst (map_delete ws m)).
Proof. rewrite map_delete_keys. apply NoDup_list_filter. Qed.

Lemma map_delete_absent ws m : ws ∉ map fst m → map_delete ws m = m.
Proof.
  unfold map_delete. induction m as [|[w l] m IH]; simpl; [done|].
  intros Hn. apply not_elem_of_cons in Hn as [Hne Hn].
  destruct (Nat.eqb_spec w ws); [congruence|]. simpl. by rewrite IH.
Qed.

Lemma map_delete_gone ws m : ws ∉ map fst (map_delete ws m).
Proof.
  rewrite map_delete_keys, list_elem_of_In, filter_In.
  intros [_ H]. by rewrite Nat.eqb_refl in H.
Qed.


Lemma map_has_spec ws m : map_has ws m = true ↔ ws ∈ map fst m.
Proof.
  unfold map_has. rewrite existsb_exists, list_elem_of_In, in_map_iff.
  split.
  - intros (e & H1 & H2). apply Nat.eqb_eq in H2. eauto.
  - intros (e & H1 & H2). exists e. split; [done|]. by apply Nat.eqb_eq.
Qed.

Lemma map_set_fresh ws l m : ws ∉ map fst m → map_set ws l m = m ++ [(ws, l)].
Proof.
  intros Hn. unfold map_set.
  destruct (map_has ws m) eqn:E; [|done].
  apply map_has_spec in E. contradiction.
Qed.

(** *** Sending *)

Lemma broadcast_alt s d ex :
  broadcast s d ex
  = map (fun w => Send w d)
        (List.filter (fun w => negb (excluded w ex) && is_open s w) (keys s)).
Proof.
  unfold broadcast, keys. induction (players s) as [|[w l] m IH]; simpl; [done|].
  destruct (negb (excluded w ex) && is_open s w); simpl; by rewrite IH.
Qed.

Lemma broadcast_elem s d ex a :
  a ∈ broadcast s d ex
  ↔ ∃ w, a = Send w d ∧ w ∈ keys s ∧ excluded w ex = false ∧ is_open s w = true.
Proof.
  rewrite broadcast_alt, list_elem_of_In, in_map_iff. split.
  - intros (w & <- & Hw). apply filter_In in Hw as [Hw Hb].
    apply andb_true_iff in Hb as [Hx Ho]. apply negb_true_iff in Hx.
    exists w. by rewrite list_elem_of_In.
  - intros (w & -> & Hw & Hx & Ho). exists w. split; [done|].
    apply filter_In. rewrite <- list_elem_of_In. split; [done|].
    by rewrite Hx, Ho.
Qed.

Lemma broadcast_not_sender s d ws d' : Send ws d' ∉ broadcast s d (Some ws).
Proof.
  rewrite broadcast_elem. intros (w & Heq & _ & Hx & _).
  injection Heq as <- _. simpl in Hx. by rewrite Nat.eqb_refl in Hx.
Qed.

Lemma broadcast_payload s d ex w d' : Send w d' ∈ broadcast s d ex → d' = d.
Proof. rewrite broadcast_elem. intros (? & Heq & _). by injection Heq. Qed.

Lemma broadcast_update s l f d ex : broadcast (update l f s) d ex = broadcast s d ex.
Proof. done. Qed.

Lemma sendTo_elem s ws d a : a ∈ sendTo s ws d → a = Send ws d.
Proof.
  unfold sendTo. destruct (is_open s ws); [|by intros ?%elem_of_nil].
  by intros ?%list_elem_of_singleton.
Qed.

(** *** Records *)

Lemma deref_update c s l pd f :
  deref c s = Some (l, pd) → deref c (update l f s) = Some (l, f pd).
Proof.
  unfold deref, update. simpl. destruct (pData c) as [l'|]; simpl; [|done].
  destruct (heap s !! l') as [pd'|] eqn:E; simpl; [|done].
  intros [= -> ->]. by rewrite list_lookup_alter_eq, E.
Qed.

Lemma deref_lookup c s l pd :
  deref c s = Some (l, pd) ↔ pData c = Some l ∧ heap s !! l = Some pd.
Proof.
  unfold deref. destruct (pData c) as [l'|]; simpl.
  - destruct (heap s !! l') as [pd'|] eqn:E; simpl; split.
    + intros [= -> ->]. done.
    + intros [[= ->] H]. rewrite E in H. by injection H as ->.
    + done.
    + intros [[= ->] H]. by rewrite E in H.
  - split; [done | by intros [? _]].
Qed.

(** ** The message handler, case by case *)

(** Peels the binds, conditionals and pair patterns off a hypothesis
    [H : handler ... = Some _]. *)
Ltac peel H :=
  repeat first
    [ match type of H with
      | (?o ≫= _) = Some _ =>
          let E := fresh "E" in
          destruct o eqn:E; simpl in H; [|discriminate H]
      | (let '(_, _) := ?p in _) = Some _ => destruct p
      | (if ?b then _ else _) = Some _ =>
          let E := fresh "E" in destruct b eqn:E
      end ];
  try (injection H as <- <-).

Section Relay.

Variable StringToNumber : jsstr → num.
Variable ToPrimitive : value → option jsstr.
Local Abbreviation Number := (Number StringToNumber ToPrimitive).
Local Abbreviation number_or := (number_or StringToNumber ToPrimitive).
Local Abbreviation quantity_field := (quantity_field StringToNumber ToPrimitive).
Local Abbreviation on_message := (on_message StringToNumber ToPrimitive).
Local Abbreviation step := (step StringToNumber ToPrimitive).
Local Abbreviation run := (run StringToNumber ToPrimitive).

Lemma type_of_prop msg ty : type_of msg = Some ty → ty = prop msg "type".
Proof. destruct msg; simpl; congruence. Qed.

Lemma on_message_cases ws raw rnd now s s' out :
  on_message ws raw rnd now s = Some (s', out) →
  relayed ws s s' out
  ∨ (∃ c msg l pd text,
        raw = Parsed msg ∧ closure_of s ws = Some c ∧ joined c = true
        ∧ is_str (prop msg "type") "chat" = true
        ∧ deref c s = Some (l, pd)
        ∧ text_field (prop msg "text") = Some text ∧ text ≠ []
        ∧ s' = s ∧ out = broadcast s (PChat (id pd) (name pd) text) None)
  ∨ (∃ c msg nm,
        raw = Parsed msg ∧ closure_of s ws = Some c ∧ joined c = false
        ∧ is_str (prop msg "type") "join" = true
        ∧ name_field (prop msg "name") = Some nm
        ∧ s' = enroll ws (new_player (genId rnd) nm now) s
        ∧ out = sendTo s' ws (PWelcome (genId rnd) (existing s' ws))
                ++ broadcast s' (PJoin (genId rnd) nm) (Some ws)).
Proof.
  unfold on_message. intros H.
  destruct (closure_of s ws) as [c|] eqn:Hc.
  2:{ injection H as <- <-. left. split; by left. }
  destruct raw as [|msg].
  { injection H as <- <-. left. split; by left. }
  destruct (type_of msg) as [ty|] eqn:Hty; simpl in H; [|done].
  apply type_of_prop in Hty. subst ty.
  destruct (is_str (prop msg "type") "join" && negb (joined c)) eqn:Hj.
  { (* join *)
    apply andb_true_iff in Hj as [Hj1 Hj2]. apply negb_true_iff in Hj2.
    unfold on_join in H. peel H.
    right; right. eexists c, msg, _. repeat split; eauto. }
  destruct (negb (joined c)) eqn:Hjn.
  { injection H as <- <-. left. split; by left. }
  apply negb_false_iff in Hjn.
  destruct (is_str (prop msg "type") "move") eqn:T1.
  { unfold on_move in H. peel H. left. split.
    - right. eexists _, _. split; [done|]. by intros [].
    - right. eexists (PMove _ _ _ _ _). by repeat split. }
  destruct (is_str (prop msg "type") "chat") eqn:T2.
  { unfold on_chat in H. peel H.
    - right; left. eexists c, msg, _, _, _. repeat split; eauto.
      intros ->. discriminate.
    - left. split; by left. }
  destruct (is_str (prop msg "type") "equip") eqn:T3.
  { unfold on_equip in H. peel H. left. split.
    - right. eexists _, _. split; [done|]. by intros [].
    - right. eexists (PEquip _ _). by repeat split. }
  destruct (is_str (prop msg "type") "stats") eqn:T4.
  { unfold on_stats in H. peel H. left. split.
    - right. eexists _, _. split; [done|]. by intros [].
    - right. eexists (PStats _ _). by repeat split. }
  destruct (is_str (prop msg "type") "attack") eqn:T5.
  { unfold on_attack in H. peel H. left. split; [by left|].
    right. eexists (PAttack _ _ _ _ _ _ _). by repeat split. }
  destruct (is_str (prop msg "type") "enemyKill") eqn:T6.
  { unfold on_enemyKill in H. peel H. left. split; [by left|].
    right. eexists (PEnemyKill _ _ _). by repeat split. }
  destruct (is_str (prop msg "type") "groundDrop") eqn:T7.
  { unfold on_groundDrop in H. peel H. left. split; [by left|].
    right. eexists (PGroundDrop _ _ _ _ _ _). by repeat split. }
  destruct (is_str (prop msg "type") "pong") eqn:T8.
  { unfold on_pong in H. peel H. left. split; [|by left].
    right. eexists _, _. split; [done|]. by intros []. }
  injection H as <- <-. left. split; by left.
Qed.

(** ** The invariant *)

Lemma wf_init : wf init.
Proof.
  split.
  - constructor.
  - intros ws l H. by apply elem_of_nil in H.
  - intros ws c H. done.
Qed.

Lemma filter_keys_NoDup (f : nat * nat → bool) m :
  NoDup (map fst m) → NoDup (map fst (List.filter f m)).
Proof.
  induction m as [|e m IH]; simpl; [done|].
  intros Hnd. apply NoDup_cons in Hnd as [Hn Hnd].
  destruct (f e); simpl; [|by apply IH].
  apply NoDup_cons. split; [|by apply IH].
  intros Hin. apply Hn.
  apply list_elem_of_In, in_map_iff in Hin as (e' & He' & Hin).
  apply filter_In in Hin as [Hin _].
  apply list_elem_of_In, in_map_iff. eauto.
Qed.

Lemma wf_shrink s s' f :
  wf s →
  (∀ ws, closure_of s' ws = closure_of s ws) →
  players s' = List.filter f (players s) →
  length (heap s) ≤ length (heap s') →
  wf s'.
Proof.
  intros [Hk He Hc] Hcl Hp Hh. split.
  - unfold keys. rewrite Hp. by apply filter_keys_NoDup.
  - intros ws l Hin. rewrite Hp in Hin.
    apply list_elem_of_In, filter_In in Hin as [Hin _].
    rewrite Hcl. by apply He, list_elem_of_In.
  - intros ws c H. rewrite Hcl in H.
    destruct (Hc ws c H) as [->|(l & -> & Hl)]; [by left|].
    right. exists l. split; [done|lia].
Qed.

Lemma filter_true {A} (l : list A) : List.filter (fun _ => true) l = l.
Proof. induction l; simpl; by f_equal. Qed.

Lemma wf_same s s' :
  wf s →
  (∀ ws, closure_of s' ws = closure_of s ws) →
  players s' = players s →
  length (heap s) ≤ length (heap s') →
  wf s'.
Proof.
  intros Hwf Hcl Hp Hh. eapply (wf_shrink s s' (fun _ => true)); eauto.
  by rewrite filter_true.
Qed.

Lemma wf_update s l f : wf s → wf (update l f s).
Proof.
  intros Hwf. apply (wf_same s); [done|done|done|].
  unfold update. simpl. by rewrite length_alter.
Qed.

Lemma wf_delete s ws : wf s → wf (set_players (map_delete ws (players s)) s).
Proof. intros Hwf. by eapply (wf_shrink s). Qed.

Lemma wf_set_readyState s ws r : wf s → wf (set_readyState ws r s).
Proof.
  intros Hwf. apply (wf_same s); [done| |done|done].
  intros w. apply closure_of_set_readyState.
Qed.

(** A connection that has not joined is not in the Map. *)
Lemma pending_not_registered s ws c :
  wf s → closure_of s ws = Some c → joined c = false → ws ∉ keys s.
Proof.
  intros [_ He _] Hc Hj Hin.
  apply list_elem_of_In, in_map_iff in Hin as ([w l] & Hw & Hin). simpl in Hw. subst w.
  apply list_elem_of_In, He in Hin. rewrite Hc in Hin.
  injection Hin as ->. discriminate.
Qed.

Lemma unlistened_not_registered s ws :
  wf s → closure_of s ws = None → ws ∉ keys s.
Proof.
  intros [_ He _] Hc Hin.
  apply list_elem_of_In, in_map_iff in Hin as ([w l] & Hw & Hin). simpl in Hw. subst w.
  apply list_elem_of_In, He in Hin. congruence.
Qed.

Lemma enroll_players s ws pd c :
  wf s → closure_of s ws = Some c → joined c = false →
  players (enroll ws pd s) = players s ++ [(ws, length (heap s))].
Proof.
  intros Hwf Hc Hj. unfold enroll. simpl.
  apply map_set_fresh. by eapply pending_not_registered.
Qed.

Lemma wf_enroll s ws pd c :
  wf s → closure_of s ws = Some c → joined c = false → wf (enroll ws pd s).
Proof.
  intros Hwf Hc Hj.
  pose proof (pending_not_registered _ _ _ Hwf Hc Hj) as Hfresh.
  pose proof (closure_of_lt _ _ _ Hc) as Hlt.
  pose proof (enroll_players s ws pd c Hwf Hc Hj) as Hp.
  destruct Hwf as [Hk He Hcl]. split.
  - unfold keys. rewrite Hp, map_app. simpl.
    apply NoDup_app. split; [done|]. split.
    + intros w Hw Hw'. apply list_elem_of_singleton in Hw'. by subst w.
    + apply NoDup_singleton.
  - intros w l Hin. rewrite Hp in Hin.
    apply elem_of_app in Hin as [Hin|Hin].
    + assert (w ≠ ws) as Hne.
      { intros ->. apply Hfresh, list_elem_of_In, in_map_iff.
        exists (ws, l). split; [done|]. by apply list_elem_of_In. }
      unfold enroll. rewrite closure_of_set_closure_ne; [|done].
      by apply He.
    + apply list_elem_of_singleton in Hin. injection Hin as -> ->.
      unfold enroll. by rewrite closure_of_set_closure.
  - intros w c' H. unfold enroll in H.
    destruct (decide (ws = w)) as [<-|Hne].
    + rewrite closure_of_set_closure in H; [|done]. injection H as <-.
      right. eexists. split; [done|]. simpl. rewrite length_app. simpl. lia.
    + rewrite closure_of_set_closure_ne in H; [|done].
      destruct (Hcl w c' H) as [->|(l & -> & Hl)]; [by left|].
      right. exists l. split; [done|]. simpl. rewrite length_app. lia.
Qed.

Lemma wf_accept s : wf s → wf (accept s).
Proof.
  intros Hwf. apply (wf_same s); [done| |done|done].
  intros ws. destruct (decide (ws < length (sockets s))) as [Hlt|Hge].
  - by apply closure_of_accept_old.
  - unfold closure_of, accept. simpl.
    rewrite lookup_app_r; [|lia].
    rewrite (lookup_ge_None_2 (sockets s)); [|lia].
    destruct (ws - length (sockets s)); done.
Qed.

Lemma wf_on_connection s :
  wf s → wf (fst (on_connection (length (sockets s)) (accept s))).
Proof.
  intros Hwf. apply wf_accept in Hwf as Hwf'.
  unfold on_connection. destruct (MAX_PLAYERS <=? _); simpl; [done|].
  destruct Hwf' as [Hk He Hcl]. split.
  - done.
  - intros w l Hin. simpl in Hin.
    assert (w ≠ length (sockets s)) as Hne.
    { intros ->. apply He in Hin. by rewrite closure_of_accept_new in Hin. }
    rewrite closure_of_set_closure_ne; [|done]. by apply He.
  - intros w c0 H.
    destruct (decide (length (sockets s) = w)) as [<-|Hne].
    + rewrite closure_of_set_closure in H.
      * injection H as <-. by left.
      * unfold accept. simpl. rewrite length_app. simpl. lia.
    + rewrite closure_of_set_closure_ne in H; [|done]. exact (Hcl w c0 H).
Qed.

(** ** The heartbeat *)

Lemma filter_filter {A} (f g : A → bool) l :
  List.filter f (List.filter g l) = List.filter (fun a => g a && f a) l.
Proof.
  induction l as [|a l IH]; simpl; [done|].
  destruct (g a); simpl; [destruct (f a)|]; by rewrite IH.
Qed.

Lemma keys_inj (m : list (nat * nat)) e e' :
  NoDup (map fst m) → e ∈ m → e' ∈ m → fst e = fst e' → e = e'.
Proof.
  induction m as [|a m IH]; simpl; intros Hnd He He' Hk.
  { by apply elem_of_nil in He. }
  apply NoDup_cons in Hnd as [Hn Hnd].
  apply elem_of_cons in He as [->|He]; apply elem_of_cons in He' as [->|He'].
  - done.
  - exfalso. apply Hn. rewrite Hk. apply list_elem_of_In, in_map, list_elem_of_In, He'.
  - exfalso. apply Hn. rewrite <- Hk. apply list_elem_of_In, in_map, list_elem_of_In, He.
  - by apply IH.
Qed.

Lemma heartbeat_loop_state now es s :
  sockets (fst (heartbeat_loop now es s)) = sockets s
  ∧ heap (fst (heartbeat_loop now es s)) = heap s
  ∧ players (fst (heartbeat_loop now es s))
    = List.filter
        (fun e => negb (existsb (fun e' => timed_out now (heap s) e'
                                           && Nat.eqb (fst e') (fst e)) es))
        (players s).
Proof.
  revert s. induction es as [|[ws l] es IH]; intros s; simpl.
  { by rewrite filter_true. }
  unfold timed_out at 1. simpl.
  destruct (heap s !! l) as [pd|] eqn:Hl; [|apply IH].
  destruct (HEARTBEAT_TIMEOUT <? now - lastPing pd)%Z.
  - specialize (IH (set_players (map_delete ws (players s)) s)).
    destruct (heartbeat_loop now es _) as [s' out]. simpl in *.
    destruct IH as (-> & -> & ->). repeat split.
    unfold map_delete. rewrite filter_filter. apply filter_ext.
    intros [w l']. simpl. rewrite negb_orb. f_equal.
    by rewrite Nat.eqb_sym.
  - specialize (IH s). destruct (heartbeat_loop now es s) as [s' out]. simpl in *.
    done.
Qed.

Lemma heartbeat_players now s :
  NoDup (keys s) → players (fst (heartbeat now s)) = survivors now s.
Proof.
  intros Hnd. unfold heartbeat, survivors.
  destruct (heartbeat_loop_state now (players s) s) as (_ & _ & ->).
  apply filter_ext_in. intros e He. f_equal.
  apply eq_true_iff_eq. rewrite existsb_exists. split.
  - intros (e' & He' & Hb). apply andb_true_iff in Hb as [Ht Hk].
    apply Nat.eqb_eq in Hk.
    rewrite <- (keys_inj (players s) e' e); rewrite ?list_elem_of_In; done.
  - intros Ht. exists e. split; [done|]. by rewrite Ht, Nat.eqb_refl.
Qed.

Lemma heartbeat_loop_out now es s a :
  a ∈ snd (heartbeat_loop now es s) →
  ∃ e, e ∈ es
       ∧ (timed_out now (heap s) e = true ∧ a = Terminate (fst e)
          ∨ timed_out now (heap s) e = false ∧ a = Send (fst e) PPing).
Proof.
  revert s. induction es as [|[ws l] es IH]; intros s; simpl.
  { by intros ?%elem_of_nil. }
  assert (∀ s1, heap s1 = heap s → a ∈ snd (heartbeat_loop now es s1) →
                ∃ e, e ∈ (ws, l) :: es
                     ∧ (timed_out now (heap s) e = true ∧ a = Terminate (fst e)
                        ∨ timed_out now (heap s) e = false ∧ a = Send (fst e) PPing))
    as Hrest.
  { intros s1 Hh Ha. destruct (IH s1 Ha) as (e & He & Hc).
    rewrite Hh in Hc. exists e. split; [by right|done]. }
  destruct (heap s !! l) as [pd|] eqn:Hl; [|by apply Hrest].
  destruct (HEARTBEAT_TIMEOUT <? now - lastPing pd)%Z eqn:Ht.
  - destruct (heartbeat_loop now es _) as [s' out] eqn:E. simpl.
    intros [->|Ha]%elem_of_cons.
    + exists (ws, l). split; [by left|]. left. split; [|done].
      unfold timed_out. simpl. by rewrite Hl.
    + eapply (Hrest (set_players _ s)); [done|]. by rewrite E.
  - destruct (heartbeat_loop now es s) as [s' out] eqn:E. simpl.
    intros [Ha|Ha]%elem_of_app.
    + apply sendTo_elem in Ha. exists (ws, l). split; [by left|]. right.
      split; [|done]. unfold timed_out. simpl. by rewrite Hl.
    + apply (Hrest s); [done|]. by rewrite E.
Qed.


Lemma wf_heartbeat now s : wf s → wf (fst (heartbeat now s)).
Proof.
  intros Hwf. unfold heartbeat.
  destruct (heartbeat_loop_state now (players s) s) as (Hs & Hh & Hp).
  eapply (wf_shrink s); [done| |exact Hp|by rewrite Hh].
  intros ws. unfold closure_of. by rewrite Hs.
Qed.

(** ** Every reachable state is well formed *)

Lemma wf_on_message ws raw rnd now s s' out :
  wf s → on_message ws raw rnd now s = Some (s', out) → wf s'.
Proof.
  intros Hwf H. apply on_message_cases in H as [H|[H|H]].
  - destruct H as [[->|(l & f & -> & _)] _]; [done|by apply wf_update].
  - destruct H as (c & msg & l & pd & text & _ & _ & _ & _ & _ & _ & _ & -> & _). done.
  - destruct H as (c & msg & nm & _ & Hc & Hj & _ & _ & -> & _).
    by eapply wf_enroll.
Qed.

Lemma wf_step e s s' out : wf s → step e s = Some (s', out) → wf s'.
Proof.
  intros Hwf H. destruct e as [|ws raw rnd now|ws|ws|ws|now]; simpl in H.
  - injection H as H. apply (f_equal fst) in H. simpl in H. subst s'.
    by apply wf_on_connection.
  - by eapply wf_on_message.
  - injection H as <- _. by apply wf_set_readyState.
  - injection H as H. apply (f_equal fst) in H. simpl in H. subst s'.
    unfold on_error. destruct (closure_of _ ws); cbn [fst].
    + by apply wf_delete, wf_set_readyState.
    + by apply wf_set_readyState.
  - injection H as H. apply (f_equal fst) in H. simpl in H. subst s'.
    unfold on_close. destruct (closure_of _ ws); cbn [fst].
    + by apply wf_delete, wf_set_readyState.
    + by apply wf_set_readyState.
  - injection H as H. apply (f_equal fst) in H. simpl in H. subst s'.
    by apply wf_heartbeat.
Qed.

Lemma wf_run evs s s' out : wf s → run evs s = Some (s', out) → wf s'.
Proof.
  revert s out. induction evs as [|e evs IH]; intros s out Hwf H; simpl in H.
  - by injection H as <- _.
  - destruct (step e s) as [[s1 o1]|] eqn:E; simpl in H; [|done].
    destruct (run evs s1) as [[s2 o2]|] eqn:E2; simpl in H; [|done].
    injection H as <- _. eapply IH; [|exact E2]. by eapply wf_step.
Qed.

Lemma reachable_wf s : reachable StringToNumber ToPrimitive s → wf s.
Proof. intros (evs & out & H). eapply wf_run; [apply wf_init | exact H]. Qed.

(** ** Leaving *)



Lemma leaves_to_fanout w i ks :
  NoDup ks →
  leaves_to w i (map (fun k => Send k (PLeave i)) ks) = if decide (w ∈ ks) then 1 else 0.
Proof.
  unfold leaves_to. induction 1 as [|k ks Hk Hnd IH].
  { destruct (decide (w ∈ [])) as [H|H]; [by apply elem_of_nil in H|done]. }
  cbn [map List.filter is_leave_to].
  unfold jsstr_eqb. rewrite bool_decide_eq_true_2 by done. rewrite andb_true_r.
  destruct (Nat.eqb_spec k w) as [->|Hne]; cbn [length]; rewrite IH.
  - destruct (decide (w ∈ ks)) as [?|_]; [done|].
    destruct (decide (w ∈ w :: ks)) as [_|H]; [done|]. exfalso. apply H. by left.
  - destruct (decide (w ∈ ks)) as [Hin|Hin];
      destruct (decide (w ∈ k :: ks)) as [Hin'|Hin']; try done.
    + exfalso. apply Hin'. by right.
    + apply elem_of_cons in Hin' as [->|?]; done.
Qed.

Lemma on_close_joined s ws l pd :
  closure_of s ws = Some (Closure true (Some l)) → heap s !! l = Some pd →
  on_close ws s
  = (set_players (map_delete ws (players s)) s, broadcast s (PLeave (id pd)) None).
Proof.
  intros Hc Hl. unfold on_close. rewrite Hc. unfold deref. simpl. by rewrite Hl.
Qed.

Lemma broadcast_all s d :
  broadcast s d None = map (fun w => Send w d) (List.filter (is_open s) (keys s)).
Proof. rewrite broadcast_alt. f_equal. Qed.


(** ** Closing *)



Lemma is_open_closed s ws : is_open (set_readyState ws 3 s) ws = false.
Proof.
  unfold is_open, set_readyState. simpl. rewrite list_lookup_alter_eq.
  by destruct (sockets s !! ws).
Qed.




(** What the close listener sends when it runs on [ws]. *)
Lemma on_close_state s ws :
  fst (on_close ws s)
  = match closure_of s ws with
    | Some _ => set_players (map_delete ws (players s)) s
    | None => s
    end.
Proof. unfold on_close. by destruct (closure_of s ws). Qed.


(** ** Session ids *)

Lemma id_at_update s l f l' :
  (∀ p, id (f p) = id p) → id_at (update l f s) l' = id_at s l'.
Proof.
  intros Hf. unfold id_at, update. simpl.
  destruct (decide (l = l')) as [->|Hne].
  - rewrite list_lookup_alter_eq. destruct (heap s !! l'); simpl; [apply Hf|done].
  - by rewrite list_lookup_alter_ne.
Qed.

Lemma live_ids_update s l f :
  (∀ p, id (f p) = id p) → live_ids (update l f s) = live_ids s.
Proof.
  intros Hf. unfold live_ids. apply map_ext. intros e. by apply id_at_update.
Qed.

Lemma live_ids_filter s s' f :
  heap s' = heap s → players s' = List.filter f (players s) →
  live_ids s' `sublist_of` live_ids s.
Proof.
  intros Hh Hp. unfold live_ids, id_at. rewrite Hp, Hh. clear Hp.
  induction (players s) as [|e m IH]; simpl; [constructor|].
  destruct (f e); simpl; [by apply sublist_skip | by apply sublist_cons].
Qed.

Lemma live_ids_enroll s ws pd c :
  wf s → closure_of s ws = Some c → joined c = false →
  live_ids (enroll ws pd s) = live_ids s ++ [id pd].
Proof.
  intros Hwf Hc Hj. unfold live_ids.
  rewrite (enroll_players s ws pd c) by done. rewrite map_app. simpl.
  f_equal.
  - apply map_ext_in. intros [w l] Hin. unfold id_at, enroll. simpl.
    apply list_elem_of_In, (wf_entry _ Hwf) in Hin.
    destruct (wf_closure _ Hwf _ _ Hin) as [?|(l' & [= <-] & Hl)]; [done|].
    by rewrite lookup_app_l.
  - unfold id_at, enroll. simpl.
    rewrite lookup_app_r by lia. by rewrite Nat.sub_diag.
Qed.

(** A step either leaves the live ids as they are, drops some, or adds
    the id drawn for a [join]. *)
Lemma step_live_ids e s s' out :
  wf s → step e s = Some (s', out) →
  live_ids s' `sublist_of` live_ids s
  ∨ ∃ i, join_draw e = [i] ∧ live_ids s' = live_ids s ++ [i].
Proof.
  intros Hwf H. destruct e as [|ws raw rnd now|ws|ws|ws|now]; simpl in H.
  - left. injection H as H. apply (f_equal fst) in H. simpl in H. subst s'.
    unfold on_connection. by destruct (MAX_PLAYERS <=? _).
  - apply on_message_cases in H as [H|[H|H]].
    + left. destruct H as [[->|(l & f & -> & Hf)] _]; [done|].
      rewrite live_ids_update; [done|]. intros p. apply Hf.
    + left. destruct H as (c & msg & l & pd & text & _ & _ & _ & _ & _ & _ & _ & -> & _).
      done.
    + right. destruct H as (c & msg & nm & -> & Hc & Hj & Hty & _ & -> & _).
      exists (genId rnd). simpl. rewrite Hty. split; [done|].
      by rewrite (live_ids_enroll s ws _ c).
  - left. by injection H as <- _.
  - left. injection H as H. apply (f_equal fst) in H. simpl in H. subst s'.
    unfold on_error. destruct (closure_of _ ws); cbn [fst]; [|done].
    by eapply live_ids_filter.
  - left. injection H as H. apply (f_equal fst) in H. simpl in H. subst s'.
    rewrite on_close_state. destruct (closure_of _ ws); [|done].
    by eapply live_ids_filter.
  - left. injection H as H. apply (f_equal fst) in H. simpl in H. subst s'.
    destruct (heartbeat_loop_state now (players s) s) as (_ & Hh & Hp).
    by eapply live_ids_filter.
Qed.

Lemma run_live_ids evs s s' out D :
  wf s → NoDup (live_ids s) → live_ids s ⊆ D → NoDup (D ++ draws evs) →
  run evs s = Some (s', out) → NoDup (live_ids s').
Proof.
  revert s out D. induction evs as [|e evs IH]; intros s out D Hwf Hnd Hsub HD H.
  { simpl in H. by injection H as <- _. }
  simpl in H.
  destruct (step e s) as [[s1 o1]|] eqn:E; simpl in H; [|done].
  destruct (run evs s1) as [[s2 o2]|] eqn:E2; simpl in H; [|done].
  injection H as <- _.
  unfold draws in HD. simpl in HD. fold (draws evs) in HD. rewrite app_assoc in HD.
  assert (wf s1) as Hwf1 by by eapply wf_step.
  apply (IH s1 o2 (D ++ join_draw e)); try done.
  - destruct (step_live_ids e s s1 o1 Hwf E) as [Hs|(i & Hi & ->)].
    + exact (sublist_NoDup _ _ Hnd Hs).
    + apply NoDup_app. split; [done|]. split; [|apply NoDup_singleton].
      intros j Hj ->%list_elem_of_singleton.
      apply NoDup_app in HD as (HD & _ & _). rewrite Hi in HD.
      apply NoDup_app in HD as (_ & HD & _).
      apply (HD i); [by apply Hsub | by left].
  - destruct (step_live_ids e s s1 o1 Hwf E) as [Hs|(i & Hi & ->)].
    + intros j Hj. apply elem_of_app. left. apply Hsub.
      eapply sublist_subseteq; eassumption.
    + rewrite Hi. intros j [Hj|Hj]%elem_of_app; apply elem_of_app; [left|by right].
      by apply Hsub.
Qed.

(** C3, as the code has it.  The server draws each session id at
    random and never compares it with the ids in use.  Whenever the
    ids drawn for the [join] messages of a run are pairwise distinct,
    the ids of the registered sessions are pairwise distinct in the
    state the run ends in. *)
Theorem ids_unique_when_draws_distinct evs s out :
  NoDup (draws evs) →
  run evs init = Some (s, out) →
  NoDup (live_ids s).
Proof.
  intros HD H. apply (run_live_ids evs init s out []); try done.
  - apply wf_init.
  - constructor.
Qed.

(** ** Dispatch on the message type *)

Lemma is_str_true v k : is_str v k = true → v = VStr (lit k).
Proof.
  destruct v; simpl; try done. unfold jsstr_eqb.
  intros H%bool_decide_eq_true. by subst.
Qed.

Lemma type_of_str msg k :
  is_str (prop msg "type") k = true → type_of msg = Some (VStr (lit k)).
Proof.
  intros H. destruct msg; simpl in *; try done. by apply is_str_true in H as ->.
Qed.

Lemma wf_deref s ws c :
  wf s → closure_of s ws = Some c → joined c = true →
  ∃ l pd, deref c s = Some (l, pd).
Proof.
  intros Hwf Hc Hj.
  destruct (wf_closure _ Hwf _ _ Hc) as [->|(l & -> & Hl)]; [done|].
  destruct (lookup_lt_is_Some_2 _ _ Hl) as [pd Hpd].
  exists l, pd. unfold deref. simpl. by rewrite Hpd.
Qed.

Lemma on_message_join ws c msg rnd now s :
  closure_of s ws = Some c → joined c = false →
  is_str (prop msg "type") "join" = true →
  on_message ws (Parsed msg) rnd now s = on_join ws msg rnd now s.
Proof.
  intros Hc Hj Hty. unfold on_message.
  rewrite Hc, (type_of_str _ _ Hty), Hj. reflexivity.
Qed.

Lemma on_message_chat ws c msg rnd now s :
  closure_of s ws = Some c → joined c = true →
  is_str (prop msg "type") "chat" = true →
  on_message ws (Parsed msg) rnd now s = on_chat ws c msg s.
Proof.
  intros Hc Hj Hty. unfold on_message.
  rewrite Hc, (type_of_str _ _ Hty), Hj. reflexivity.
Qed.

Lemma on_message_groundDrop ws c msg rnd now s :
  closure_of s ws = Some c → joined c = true →
  is_str (prop msg "type") "groundDrop" = true →
  on_message ws (Parsed msg) rnd now s
  = on_groundDrop StringToNumber ToPrimitive ws c msg s.
Proof.
  intros Hc Hj Hty. unfold on_message.
  rewrite Hc, (type_of_str _ _ Hty), Hj. reflexivity.
Qed.

Lemma on_message_move ws c msg rnd now s :
  closure_of s ws = Some c → joined c = true →
  is_str (prop msg "type") "move" = true →
  on_message ws (Parsed msg) rnd now s
  = on_move StringToNumber ToPrimitive ws c msg s.
Proof.
  intros Hc Hj Hty. unfold on_message.
  rewrite Hc, (type_of_str _ _ Hty), Hj. reflexivity.
Qed.

(** ** Who receives what *)

(** C5.  A chat message of a joined session whose sanitised text is
    not empty is broadcast, with the sender's id and name, to every
    registered connection that is open, the sender's included.  For any
    message whatever, the only payloads the handler sends back to the
    sender are that chat echo and the [welcome] that answers a [join];
    the broadcasts of [move], [equip], [stats], [attack], [enemyKill],
    [groundDrop] and [join] never reach the sender. *)
Theorem chat_is_the_only_echo ws c msg rnd now s :
  wf s → closure_of s ws = Some c →
  (joined c = true → is_str (prop msg "type") "chat" = true →
   ∀ text, text_field (prop msg "text") = Some text → text ≠ [] →
   ∃ l pd,
     deref c s = Some (l, pd)
     ∧ on_message ws (Parsed msg) rnd now s
       = Some (s, broadcast s (PChat (id pd) (name pd) text) None)
     ∧ ∀ w, w ∈ keys s → is_open s w = true →
            Send w (PChat (id pd) (name pd) text)
            ∈ broadcast s (PChat (id pd) (name pd) text) None)
  ∧ (∀ s' out d,
        on_message ws (Parsed msg) rnd now s = Some (s', out) →
        Send ws d ∈ out →
        (is_chat d = true ∧ joined c = true
         ∧ is_str (prop msg "type") "chat" = true)
        ∨ (is_welcome d = true ∧ joined c = false
           ∧ is_str (prop msg "type") "join" = true)).
Proof.
  intros Hwf Hc. split.
  - intros Hj Hty text Htext Hne.
    destruct (wf_deref s ws c Hwf Hc Hj) as (l & pd & Hd).
    exists l, pd. split; [done|]. split.
    + rewrite (on_message_chat ws c) by done. unfold on_chat.
      rewrite Htext. simpl. destruct text; [done|]. simpl. by rewrite Hd.
    + intros w Hw Ho. apply broadcast_elem. by exists w.
  - intros s' out d H Hin.
    apply on_message_cases in H as [H|[H|H]].
    + destruct H as [_ [->|(d' & _ & _ & ->)]].
      * by apply elem_of_nil in Hin.
      * by apply broadcast_not_sender in Hin.
    + destruct H as (c' & msg' & l & pd & text & [= <-] & Hc' & Hj & Hty & _ & _ & _ & _ & ->).
      rewrite Hc in Hc'. injection Hc' as <-.
      apply broadcast_payload in Hin as ->. by left.
    + destruct H as (c' & msg' & nm & [= <-] & Hc' & Hj & Hty & _ & _ & ->).
      rewrite Hc in Hc'. injection Hc' as <-.
      apply elem_of_app in Hin as [Hin|Hin].
      * apply sendTo_elem in Hin. injection Hin as ->. by right.
      * by apply broadcast_not_sender in Hin.
Qed.

(** ** Joining *)

Lemma map_set_elem ws l m : (ws, l) ∈ map_set ws l m.
Proof.
  unfold map_set. destruct (map_has ws m) eqn:E.
  - apply map_has_spec, list_elem_of_In, in_map_iff in E as ([w l'] & Hw & Hin).
    simpl in Hw. subst w.
    apply list_elem_of_In, in_map_iff. exists (ws, l'). split; [|done].
    simpl. by rewrite Nat.eqb_refl.
  - apply elem_of_app. right. by left.
Qed.

Lemma is_open_enroll s ws pd w : is_open (enroll ws pd s) w = is_open s w.
Proof.
  unfold is_open, enroll, set_closure. simpl.
  destruct (decide (ws = w)) as [->|Hne].
  - rewrite list_lookup_alter_eq. by destruct (sockets s !! w).
  - by rewrite list_lookup_alter_ne.
Qed.

Lemma heap_enroll_new s ws pd : heap (enroll ws pd s) !! length (heap s) = Some pd.
Proof.
  unfold enroll. simpl. rewrite lookup_app_r by lia. by rewrite Nat.sub_diag.
Qed.

Lemma heap_enroll_old s ws pd l op :
  heap s !! l = Some op → heap (enroll ws pd s) !! l = Some op.
Proof. intros H. unfold enroll. simpl. by apply lookup_app_l_Some. Qed.

(** The roster built right after [ws] was enrolled: one element per
    entry the Map had before, in the Map's order, each made of the
    eight fields of the record that the entry's connection holds
    through its closure. *)
Lemma existing_enroll s ws pd c :
  wf s → closure_of s ws = Some c → joined c = false →
  Forall2 (fun e r =>
             fst e ≠ ws
             ∧ ∃ op, closure_of s (fst e) = Some (Closure true (Some (snd e)))
                     ∧ heap s !! snd e = Some op
                     ∧ r = Entry (id op) (name op) (x op) (z op) (ry op)
                                 (moving op) (equipment op) (stats op))
          (players s) (existing (enroll ws pd s) ws).
Proof.
  intros Hwf Hc Hj.
  pose proof (pending_not_registered _ _ _ Hwf Hc Hj) as Hfresh.
  unfold existing. rewrite (enroll_players s ws pd c) by done.
  pose proof (heap_enroll_old s ws pd) as Hold. revert Hold.
  generalize (enroll ws pd s). intros s' Hold.
  rewrite flat_map_app. simpl. rewrite Nat.eqb_refl. simpl. rewrite app_nil_r.
  assert (∀ e, e ∈ players s →
               fst e ≠ ws
               ∧ ∃ op, closure_of s (fst e) = Some (Closure true (Some (snd e)))
                       ∧ heap s !! snd e = Some op) as Hall.
  { intros [w l] Hin. simpl. split.
    - intros ->. apply Hfresh, list_elem_of_In, in_map_iff.
      exists (ws, l). split; [done|]. by apply list_elem_of_In.
    - pose proof (wf_entry _ Hwf _ _ Hin) as Hcl.
      destruct (wf_closure _ Hwf _ _ Hcl) as [?|(l' & [= <-] & Hl)]; [done|].
      destruct (lookup_lt_is_Some_2 _ _ Hl) as [op Hop]. eauto. }
  induction (players s) as [|e m IH]; simpl; [constructor|].
  destruct (Hall e) as (Hne & op & Hcl & Hop); [by left|].
  destruct (Nat.eqb_spec (fst e) ws); [done|].
  rewrite (Hold _ _ Hop). simpl. constructor.
  - split; [done|]. eauto.
  - apply IH. intros e' He'. apply Hall. by right.
Qed.

(** C7.  A [join] on a pending connection succeeds and answers with a
    [welcome] (sent when the connection is open) whose [players] array
    has exactly one element per session registered before the join, in
    the registry's order and none for the joiner.  The element of a
    session is made of the [id], [name], [x], [z], [ry], [moving],
    [equipment] and [stats] that the session's own record has at that
    moment, field by field; the joiner is entered in the registry
    after the others. *)
Theorem welcome_lists_the_others ws c msg rnd now s nm :
  wf s → closure_of s ws = Some c → joined c = false →
  is_str (prop msg "type") "join" = true →
  name_field (prop msg "name") = Some nm →
  ∃ s' roster,
    on_message ws (Parsed msg) rnd now s
    = Some (s', sendTo s' ws (PWelcome (genId rnd) roster)
                ++ broadcast s' (PJoin (genId rnd) nm) (Some ws))
    ∧ (is_open s ws = true →
       sendTo s' ws (PWelcome (genId rnd) roster)
       = [Send ws (PWelcome (genId rnd) roster)])
    ∧ players s' = players s ++ [(ws, length (heap s))]
    ∧ Forall2 (fun e r =>
                 fst e ≠ ws
                 ∧ ∃ op, closure_of s (fst e) = Some (Closure true (Some (snd e)))
                         ∧ heap s !! snd e = Some op
                         ∧ r = Entry (id op) (name op) (x op) (z op) (ry op)
                                     (moving op) (equipment op) (stats op))
              (players s) roster.
Proof.
  intros Hwf Hc Hj Hty Hnm.
  set (pd := new_player (genId rnd) nm now).
  exists (enroll ws pd s), (existing (enroll ws pd s) ws).
  split; [|split; [|split]].
  - rewrite (on_message_join ws c) by done. unfold on_join. by rewrite Hnm.
  - intros Ho. unfold sendTo. by rewrite is_open_enroll, Ho.
  - by apply (enroll_players s ws pd c).
  - by apply (existing_enroll s ws pd c).
Qed.

(** What a [move] leaves in the sender's record. *)
Lemma move_updates_record ws c msg rnd now s s' out :
  closure_of s ws = Some c → joined c = true →
  is_str (prop msg "type") "move" = true →
  on_message ws (Parsed msg) rnd now s = Some (s', out) →
  ∃ l pd nx nz nry,
    deref c s = Some (l, pd)
    ∧ number_or (prop msg "x") 0 = Some nx
    ∧ number_or (prop msg "z") 0 = Some nz
    ∧ number_or (prop msg "ry") 0 = Some nry
    ∧ deref c s'
      = Some (l, set_position nx nz nry (ToBoolean (prop msg "moving")) pd)
    ∧ out = broadcast s (PMove (id pd) nx nz nry (ToBoolean (prop msg "moving")))
                      (Some ws).
Proof.
  intros Hc Hj Hty H. rewrite (on_message_move ws c) in H by done.
  unfold on_move in H.
  destruct (deref c s) as [[l pd]|] eqn:Hd; simpl in H; [|done].
  destruct (number_or (prop msg "x") 0) as [nx|]; simpl in H; [|done].
  destruct (number_or (prop msg "z") 0) as [nz|]; simpl in H; [|done].
  destruct (number_or (prop msg "ry") 0) as [nry|]; simpl in H; [|done].
  rewrite (deref_update c s l pd) in H by done. simpl in H.
  injection H as <- <-.
  exists l, pd, nx, nz, nry. repeat split; try done.
  by apply deref_update.
Qed.

(** C9.  A [join] whose [name] is missing, empty or otherwise falsy
    succeeds: the session is created and registered under the name
    [Player]. *)
Theorem join_without_name ws c msg rnd now s :
  closure_of s ws = Some c → joined c = false →
  is_str (prop msg "type") "join" = true →
  ToBoolean (prop msg "name") = false →
  ∃ s',
    on_message ws (Parsed msg) rnd now s
    = Some (s', sendTo s' ws (PWelcome (genId rnd) (existing s' ws))
                ++ broadcast s' (PJoin (genId rnd) (lit "Player")) (Some ws))
    ∧ closure_of s' ws = Some (Closure true (Some (length (heap s))))
    ∧ heap s' !! length (heap s) = Some (new_player (genId rnd) (lit "Player") now)
    ∧ (ws, length (heap s)) ∈ players s'
    ∧ name (new_player (genId rnd) (lit "Player") now) = lit "Player".
Proof.
  intros Hc Hj Hty Hfalsy.
  set (pd := new_player (genId rnd) (lit "Player") now).
  assert (name_field (prop msg "name") = Some (lit "Player")) as Hnm.
  { unfold name_field, js_or. by rewrite Hfalsy. }
  exists (enroll ws pd s). split; [|split; [|split; [|split]]].
  - rewrite (on_message_join ws c) by done. unfold on_join. by rewrite Hnm.
  - unfold enroll. rewrite closure_of_set_closure; [done|].
    by apply (closure_of_lt s ws c).
  - apply heap_enroll_new.
  - unfold enroll. simpl. apply map_set_elem.
  - done.
Qed.

(** ** The quantity of a ground drop *)

Lemma num_or_not_NaN n d : num_or n (Fin d) ≠ NaN.
Proof.
  unfold num_or. destruct (num_truthy n) eqn:E; [|done].
  intros ->. discriminate.
Qed.

Lemma Math_min_cap n c : n ≠ NaN → num_le (Math_min n (Fin c)) (Fin c).
Proof.
  intros Hn. destruct n as [| |p|]; [done|exact I| |apply Qle_refl].
  unfold Math_min. destruct (Qle_bool p c) eqn:E.
  - by apply Qle_bool_imp_le.
  - apply Qle_refl.
Qed.

Lemma Math_min_above p c : (c < p)%Q → Math_min (Fin p) (Fin c) = Fin c.
Proof.
  intros H. unfold Math_min. destruct (Qle_bool p c) eqn:E; [|done].
  apply Qle_bool_imp_le in E. exfalso. by apply (Qlt_not_le c p).
Qed.


Lemma num_truthy_nonzero p : ¬ (p == 0)%Q → num_truthy (Fin p) = true.
Proof.
  intros H. unfold num_truthy. destruct (Qeq_bool p 0) eqn:E; [|done].
  by apply Qeq_bool_eq in E.
Qed.

Lemma num_truthy_zero p : (p == 0)%Q → num_truthy (Fin p) = false.
Proof. intros H. unfold num_truthy. by rewrite (Qeq_eq_bool _ _ H). Qed.

Lemma quantity_field_eq v n :
  Number v = Some n →
  quantity_field v = Some (Math_min (num_or n (Fin 1)) (Fin 1000)).
Proof.
  intros H. unfold quantity_field, number_or. by rewrite H.
Qed.

Lemma quantity_field_inv v q :
  quantity_field v = Some q →
  ∃ n, Number v = Some n ∧ q = Math_min (num_or n (Fin 1)) (Fin 1000).
Proof.
  unfold quantity_field, number_or.
  destruct (Number v) as [n|]; simpl; [|done]. intros [= <-]. eauto.
Qed.

Lemma quantity_field_cap v q : quantity_field v = Some q → num_le q (Fin 1000).
Proof.
  intros (n & _ & ->)%quantity_field_inv. apply Math_min_cap, num_or_not_NaN.
Qed.

(** What any [groundDrop] of a joined session yields, if it yields
    anything: one payload, broadcast to the others. *)
Lemma on_groundDrop_inv ws c msg s s' out :
  on_groundDrop StringToNumber ToPrimitive ws c msg s = Some (s', out) →
  ∃ l pd gx gz item q,
    deref c s = Some (l, pd)
    ∧ number_or (prop msg "x") 0 = Some gx
    ∧ number_or (prop msg "z") 0 = Some gz
    ∧ itemId_field (prop msg "itemId") = Some item
    ∧ quantity_field (prop msg "quantity") = Some q
    ∧ s' = s
    ∧ out = broadcast s (PGroundDrop (id pd) (name pd) gx gz item q) (Some ws).
Proof.
  unfold on_groundDrop. intros H.
  destruct (deref c s) as [[l pd]|]; simpl in H; [|done].
  destruct (number_or (prop msg "x") 0) as [gx|]; simpl in H; [|done].
  destruct (number_or (prop msg "z") 0) as [gz|]; simpl in H; [|done].
  destruct (itemId_field (prop msg "itemId")) as [item|]; simpl in H; [|done].
  destruct (quantity_field (prop msg "quantity")) as [q|]; simpl in H; [|done].
  injection H as <- <-. by exists l, pd, gx, gz, item, q.
Qed.

Lemma on_groundDrop_run ws c msg s l pd gx gz item q :
  deref c s = Some (l, pd) →
  number_or (prop msg "x") 0 = Some gx →
  number_or (prop msg "z") 0 = Some gz →
  itemId_field (prop msg "itemId") = Some item →
  quantity_field (prop msg "quantity") = Some q →
  on_groundDrop StringToNumber ToPrimitive ws c msg s
  = Some (s, broadcast s (PGroundDrop (id pd) (name pd) gx gz item q) (Some ws)).
Proof.
  intros Hd Hx Hz Hi Hq. unfold on_groundDrop.
  rewrite Hd. simpl. rewrite Hx. simpl. rewrite Hz. simpl. rewrite Hi. simpl.
  by rewrite Hq.
Qed.

(** C8.  Whatever a [groundDrop] of a joined session broadcasts
    carries a quantity of at most 1000.  When the message's quantity is
    a number [n] and its other fields convert, the handler does
    broadcast, to the sessions other than the sender, the payload whose
    quantity is [Math.min(n || 1, 1000)]: 1000 for every [n] above
    1000, in particular for 5000. *)
Theorem groundDrop_quantity_clamped ws c msg rnd now s :
  closure_of s ws = Some c → joined c = true →
  is_str (prop msg "type") "groundDrop" = true →
  (∀ s' out w d,
      on_message ws (Parsed msg) rnd now s = Some (s', out) →
      Send w d ∈ out →
      ∃ i nm gx gz item q,
        d = PGroundDrop i nm gx gz item q
        ∧ quantity_field (prop msg "quantity") = Some q
        ∧ num_le q (Fin 1000))
  ∧ (∀ n l pd gx gz item,
        prop msg "quantity" = VNum n →
        deref c s = Some (l, pd) →
        number_or (prop msg "x") 0 = Some gx →
        number_or (prop msg "z") 0 = Some gz →
        itemId_field (prop msg "itemId") = Some item →
        on_message ws (Parsed msg) rnd now s
        = Some (s, broadcast s
                     (PGroundDrop (id pd) (name pd) gx gz item
                                  (Math_min (num_or n (Fin 1)) (Fin 1000)))
                     (Some ws))
        ∧ num_le (Math_min (num_or n (Fin 1)) (Fin 1000)) (Fin 1000)
        ∧ (∀ p, n = Fin p → (1000 < p)%Q →
                Math_min (num_or n (Fin 1)) (Fin 1000) = Fin 1000))
  ∧ quantity_field (VNum (Fin 5000)) = Some (Fin 1000).
Proof.
  intros Hc Hj Hty. split; [|split].
  - intros s' out w d H Hin.
    rewrite (on_message_groundDrop ws c) in H by done.
    apply on_groundDrop_inv in H
      as (l & pd & gx & gz & item & q & _ & _ & _ & _ & Hq & _ & ->).
    apply broadcast_payload in Hin as ->.
    exists (id pd), (name pd), gx, gz, item, q. repeat split; [done|].
    by eapply quantity_field_cap.
  - intros n l pd gx gz item Hn Hd Hx Hz Hi. split; [|split].
    + rewrite (on_message_groundDrop ws c) by done.
      apply (on_groundDrop_run ws c msg s l pd gx gz item); try done.
      rewrite Hn. by apply quantity_field_eq.
    + apply Math_min_cap, num_or_not_NaN.
    + intros p -> Hp. unfold num_or. rewrite num_truthy_nonzero.
      * by apply Math_min_above.
      * intros Hz0. rewrite Hz0 in Hp. by apply (Qlt_not_le _ _ Hp).
  - reflexivity.
Qed.


(** ** Capacity *)

(** A connection accepted while the Map holds [MAX_PLAYERS] entries or
    more is told so and closed, and gets no listeners. *)
Lemma full_registry_rejects s :
  MAX_PLAYERS ≤ length (players s) →
  step EvConnection s
  = Some (accept s, [Send (length (sockets s)) (PError (lit "Server full"));
                     Close (length (sockets s))])
  ∧ closure_of (accept s) (length (sockets s)) = None.
Proof.
  intros Hfull. split; [|apply closure_of_accept_new].
  simpl. unfold on_connection.
  apply Nat.leb_le in Hfull.
  change (players (accept s)) with (players s). rewrite Hfull.
  unfold sendTo, is_open, accept. simpl.
  rewrite lookup_app_r by lia. by rewrite Nat.sub_diag.
Qed.

Lemma step_keeps_unlistened e s s' out ws :
  ws < length (sockets s) → closure_of s ws = None →
  step e s = Some (s', out) →
  ws < length (sockets s') ∧ closure_of s' ws = None.
Proof.
  intros Hlt Hc H. destruct e as [|w raw rnd now|w|w|w|now]; simpl in H.
  - injection H as H. apply (f_equal fst) in H. simpl in H. subst s'.
    unfold on_connection. destruct (MAX_PLAYERS <=? _); cbn [fst].
    + split; [unfold accept; simpl; rewrite length_app; lia|].
      by rewrite closure_of_accept_old.
    + split.
      * unfold set_closure, accept. simpl. rewrite length_alter, length_app. lia.
      * rewrite closure_of_set_closure_ne by lia. by rewrite closure_of_accept_old.
  - apply on_message_cases in H as [H|[H|H]].
    + by destruct H as [[->|(l & f & -> & _)] _].
    + by destruct H as (? & ? & ? & ? & ? & _ & _ & _ & _ & _ & _ & _ & -> & _).
    + destruct H as (c & msg & nm & _ & Hc' & _ & _ & _ & -> & _).
      assert (w ≠ ws) as Hne by (intros ->; congruence).
      unfold enroll. split.
      * unfold set_closure. simpl. by rewrite length_alter.
      * by rewrite closure_of_set_closure_ne.
  - injection H as <- _. split.
    + unfold set_readyState. simpl. by rewrite length_alter.
    + by rewrite closure_of_set_readyState.
  - injection H as H. apply (f_equal fst) in H. simpl in H. subst s'.
    assert (ws < length (sockets (set_readyState w 2 s))
            ∧ closure_of (set_readyState w 2 s) ws = None) as [? ?].
    { split; [unfold set_readyState; simpl; by rewrite length_alter|].
      by rewrite closure_of_set_readyState. }
    unfold on_error. by destruct (closure_of _ w).
  - injection H as H. apply (f_equal fst) in H. simpl in H. subst s'.
    assert (ws < length (sockets (set_readyState w 3 s))
            ∧ closure_of (set_readyState w 3 s) ws = None) as [? ?].
    { split; [unfold set_readyState; simpl; by rewrite length_alter|].
      by rewrite closure_of_set_readyState. }
    rewrite on_close_state. by destruct (closure_of _ w).
  - injection H as H. apply (f_equal fst) in H. simpl in H. subst s'.
    destruct (heartbeat_loop_state now (players s) s) as (Hs & _ & _).
    unfold heartbeat, closure_of. by rewrite Hs.
Qed.

(** A rejected connection is never registered, whatever happens next. *)
Lemma rejected_never_registered evs s s' out ws :
  wf s → ws < length (sockets s) → closure_of s ws = None →
  run evs s = Some (s', out) →
  closure_of s' ws = None ∧ ws ∉ keys s'.
Proof.
  revert s out. induction evs as [|e evs IH]; intros s out Hwf Hlt Hc H; simpl in H.
  - injection H as <- _. split; [done|]. by apply unlistened_not_registered.
  - destruct (step e s) as [[s1 o1]|] eqn:E; simpl in H; [|done].
    destruct (run evs s1) as [[s2 o2]|] eqn:E2; simpl in H; [|done].
    injection H as <- _.
    destruct (step_keeps_unlistened e s s1 o1 ws Hlt Hc E) as [Hlt1 Hc1].
    eapply IH; [|done|done|exact E2]. by eapply wf_step.
Qed.



(** * Further properties of the handlers *)

(** ** What a message can change *)

(** The state a message leaves: the one it found, the one with the
    sender's own record rewritten (id and name kept), or the one with
    the sender enrolled. *)
Lemma on_message_shape ws raw rnd now s s' out :
  on_message ws raw rnd now s = Some (s', out) →
  s' = s
  ∨ (∃ c l pd f,
        closure_of s ws = Some c ∧ joined c = true ∧ deref c s = Some (l, pd)
        ∧ s' = update l f s ∧ id (f pd) = id pd ∧ name (f pd) = name pd)
  ∨ (∃ c nm,
        closure_of s ws = Some c ∧ joined c = false
        ∧ s' = enroll ws (new_player (genId rnd) nm now) s).
Proof.
  unfold on_message. intros H.
  destruct (closure_of s ws) as [c|] eqn:Hc; [|injection H as <- _; by left].
  destruct raw as [|msg]; [injection H as <- _; by left|].
  destruct (type_of msg) as [ty|] eqn:Hty; simpl in H; [|done].
  destruct (is_str ty "join" && negb (joined c)) eqn:Hj.
  { apply andb_true_iff in Hj as [_ Hj]. apply negb_true_iff in Hj.
    unfold on_join in H. peel H. right; right. by exists c, l. }
  destruct (negb (joined c)) eqn:Hjn; [injection H as <- _; by left|].
  apply negb_false_iff in Hjn.
  destruct (is_str ty "move").
  { unfold on_move in H. peel H. right; left. by eexists c, _, _, _. }
  destruct (is_str ty "chat"); [unfold on_chat in H; peel H; by left|].
  destruct (is_str ty "equip").
  { unfold on_equip in H. peel H. right; left. by eexists c, _, _, _. }
  destruct (is_str ty "stats").
  { unfold on_stats in H. peel H. right; left. by eexists c, _, _, _. }
  destruct (is_str ty "attack"); [unfold on_attack in H; peel H; by left|].
  destruct (is_str ty "enemyKill"); [unfold on_enemyKill in H; peel H; by left|].
  destruct (is_str ty "groundDrop"); [unfold on_groundDrop in H; peel H; by left|].
  destruct (is_str ty "pong").
  { unfold on_pong in H. peel H. right; left. by eexists c, _, _, _. }
  injection H as <- _. by left.
Qed.

(** ** One record per connection *)

Lemma separate_init : separate init.
Proof. intros w1 w2 c1 c2 l H. done. Qed.

Lemma separate_same s s' :
  (∀ ws, closure_of s' ws = closure_of s ws) → separate s → separate s'.
Proof.
  intros Hcl Hsep w1 w2 c1 c2 l H1 H2. rewrite Hcl in H1, H2. by eapply Hsep.
Qed.

Lemma separate_enroll s ws pd c :
  wf s → separate s → closure_of s ws = Some c → joined c = false →
  separate (enroll ws pd s).
Proof.
  intros Hwf Hsep Hc Hj w1 w2 c1 c2 l H1 H2 Hl1 Hl2.
  pose proof (closure_of_lt _ _ _ Hc) as Hlt.
  assert (∀ w c', w ≠ ws → closure_of (enroll ws pd s) w = Some c' →
                  pData c' = Some l → l < length (heap s)) as Hold.
  { intros w c' Hne H Hl. unfold enroll in H.
    rewrite closure_of_set_closure_ne in H by done.
    destruct (wf_closure _ Hwf _ _ H) as [->|(l' & -> & Hl')]; [done|].
    simpl in Hl. by injection Hl as <-. }
  assert (∀ c', closure_of (enroll ws pd s) ws = Some c' →
                pData c' = Some l → l = length (heap s)) as Hnew.
  { intros c' H Hl. unfold enroll in H.
    rewrite closure_of_set_closure in H by done. injection H as <-.
    simpl in Hl. by injection Hl. }
  destruct (decide (w1 = ws)) as [->|Hn1]; destruct (decide (w2 = ws)) as [->|Hn2].
  - done.
  - pose proof (Hnew _ H1 Hl1). pose proof (Hold _ _ Hn2 H2 Hl2). lia.
  - pose proof (Hnew _ H2 Hl2). pose proof (Hold _ _ Hn1 H1 Hl1). lia.
  - unfold enroll in H1, H2.
    rewrite closure_of_set_closure_ne in H1, H2 by done. by eapply Hsep.
Qed.

Lemma closure_of_heartbeat now s ws :
  closure_of (fst (heartbeat now s)) ws = closure_of s ws.
Proof.
  destruct (heartbeat_loop_state now (players s) s) as (Hs & _ & _).
  unfold heartbeat, closure_of. by rewrite Hs.
Qed.

Lemma separate_step e s s' out :
  wf s → separate s → step e s = Some (s', out) → separate s'.
Proof.
  intros Hwf Hsep H. destruct e as [|w raw rnd now|w|w|w|now]; simpl in H.
  - injection H as H. apply (f_equal fst) in H. simpl in H. subst s'.
    assert (separate (accept s)) as Hacc.
    { intros w1 w2 c1 c2 l H1 H2.
      pose proof (closure_of_lt _ _ _ H1) as L1.
      pose proof (closure_of_lt _ _ _ H2) as L2.
      unfold accept in L1, L2. simpl in L1, L2. rewrite length_app in L1, L2.
      simpl in L1, L2.
      destruct (decide (w1 = length (sockets s))) as [->|?];
        [by rewrite closure_of_accept_new in H1|].
      destruct (decide (w2 = length (sockets s))) as [->|?];
        [by rewrite closure_of_accept_new in H2|].
      rewrite closure_of_accept_old in H1, H2 by lia. by eapply Hsep. }
    unfold on_connection. destruct (MAX_PLAYERS <=? _); cbn [fst]; [done|].
    intros w1 w2 c1 c2 l H1 H2 Hl1 Hl2.
    assert (length (sockets s) < length (sockets (accept s))) as Hlt.
    { unfold accept. simpl. rewrite length_app. simpl. lia. }
    destruct (decide (length (sockets s) = w1)) as [<-|Hn1].
    { rewrite closure_of_set_closure in H1 by done. by injection H1 as <-. }
    destruct (decide (length (sockets s) = w2)) as [<-|Hn2].
    { rewrite closure_of_set_closure in H2 by done. by injection H2 as <-. }
    rewrite closure_of_set_closure_ne in H1, H2 by done. by eapply Hacc.
  - apply on_message_shape in H
      as [->|[(c & l & pd & f & _ & _ & _ & -> & _)|(c & nm & Hc & Hj & ->)]].
    + done.
    + by apply (separate_same s).
    + by eapply separate_enroll.
  - injection H as <- _. apply (separate_same s); [|done].
    intros ws. apply closure_of_set_readyState.
  - injection H as H. apply (f_equal fst) in H. simpl in H. subst s'.
    apply (separate_same s); [|done]. intros ws.
    unfold on_error. destruct (closure_of _ w); apply closure_of_set_readyState.
  - injection H as H. apply (f_equal fst) in H. simpl in H. subst s'.
    apply (separate_same s); [|done]. intros ws.
    rewrite on_close_state. destruct (closure_of _ w); apply closure_of_set_readyState.
  - injection H as H. apply (f_equal fst) in H. simpl in H. subst s'.
    apply (separate_same s); [|done]. intros ws. apply closure_of_heartbeat.
Qed.

Lemma separate_run evs s s' out :
  wf s → separate s → run evs s = Some (s', out) → separate s'.
Proof.
  revert s out. induction evs as [|e evs IH]; intros s out Hwf Hsep H; simpl in H.
  - by injection H as <- _.
  - destruct (step e s) as [[s1 o1]|] eqn:E; simpl in H; [|done].
    destruct (run evs s1) as [[s2 o2]|] eqn:E2; simpl in H; [|done].
    injection H as <- _. eapply IH; [| |exact E2].
    + by eapply wf_step.
    + by eapply separate_step.
Qed.

Lemma reachable_separate s : reachable StringToNumber ToPrimitive s → separate s.
Proof.
  intros (evs & out & H). eapply separate_run; [apply wf_init|apply separate_init|exact H].
Qed.

Lemma session_spec s w pd :
  session s w = Some pd
  ↔ ∃ c l, closure_of s w = Some c ∧ pData c = Some l ∧ heap s !! l = Some pd.
Proof.
  unfold session. split.
  - destruct (closure_of s w) as [c|]; simpl; [|done].
    destruct (deref c s) as [[l pd']|] eqn:Hd; simpl; [|done].
    intros [= ->]. apply deref_lookup in Hd as [? ?]. by exists c, l.
  - intros (c & l & -> & Hp & Hl). simpl.
    by rewrite (proj2 (deref_lookup c s l pd) (conj Hp Hl)).
Qed.

(** X1.  In every state the loop can reach, the registry has one entry
    per connection and one record per entry; each entry belongs to a
    connection that has joined and points to that connection's record;
    a connection that is pending, or was turned away, has no entry. *)
Theorem reachable_registry s :
  reachable StringToNumber ToPrimitive s →
  NoDup (keys s)
  ∧ NoDup (map snd (players s))
  ∧ (∀ ws l, (ws, l) ∈ players s →
             closure_of s ws = Some (Closure true (Some l)) ∧ is_Some (heap s !! l))
  ∧ (∀ ws c, closure_of s ws = Some c → joined c = false →
             pData c = None ∧ ws ∉ keys s)
  ∧ (∀ ws, closure_of s ws = None → ws ∉ keys s).
Proof.
  intros Hr. pose proof (reachable_wf s Hr) as Hwf.
  pose proof (reachable_separate s Hr) as Hsep.
  split; [apply (wf_keys _ Hwf)|]. split; [|split; [|split]].
  - pose proof (wf_keys _ Hwf) as Hnd. pose proof (wf_entry _ Hwf) as He.
    unfold keys in Hnd. induction (players s) as [|[w l] m IH]; simpl; [constructor|].
    simpl in Hnd. apply NoDup_cons in Hnd as [Hw Hnd].
    apply NoDup_cons. split.
    + intros ([w' l'] & Hl' & Hin)%list_elem_of_In%in_map_iff. simpl in Hl'. subst l'.
      apply Hw. apply list_elem_of_In, in_map_iff. exists (w', l). split; [|done].
      simpl. eapply Hsep.
      * apply (He w' l). right. by apply list_elem_of_In.
      * apply (He w l). by left.
      * done.
      * done.
    + apply IH; [done|]. intros ws l0 Hin. apply He. by right.
  - intros ws l Hin. pose proof (wf_entry _ Hwf _ _ Hin) as Hc. split; [done|].
    destruct (wf_closure _ Hwf _ _ Hc) as [?|(l' & [= <-] & Hl)]; [done|].
    by apply lookup_lt_is_Some_2.
  - intros ws c Hc Hj. split; [|by eapply pending_not_registered].
    destruct (wf_closure _ Hwf _ _ Hc) as [->|(l' & -> & _)]; done.
  - intros ws Hc. by apply unlistened_not_registered.
Qed.

Lemma step_keeps_identity e s s' out w pd :
  wf s → session s w = Some pd → step e s = Some (s', out) →
  closure_of s' w = closure_of s w
  ∧ ∃ pd', session s' w = Some pd' ∧ id pd' = id pd ∧ name pd' = name pd.
Proof.
  intros Hwf Hs H. apply session_spec in Hs as (c & l & Hc & Hp & Hl).
  assert (∀ s1, closure_of s1 w = closure_of s w → heap s1 !! l = Some pd →
                closure_of s1 w = closure_of s w
                ∧ ∃ pd', session s1 w = Some pd' ∧ id pd' = id pd ∧ name pd' = name pd)
    as Hsame.
  { intros s1 H1 H2. split; [done|]. exists pd. split; [|done].
    apply session_spec. exists c, l. by rewrite H1. }
  destruct e as [|ws raw rnd now|ws|ws|ws|now]; simpl in H.
  - injection H as H. apply (f_equal fst) in H. simpl in H. subst s'.
    pose proof (closure_of_lt _ _ _ Hc) as Hlt.
    unfold on_connection. destruct (MAX_PLAYERS <=? _); cbn [fst]; apply Hsame; try done.
    + by apply closure_of_accept_old.
    + rewrite closure_of_set_closure_ne by lia. by apply closure_of_accept_old.
  - apply on_message_shape in H
      as [->|[(c' & l' & pd0 & f & Hc' & _ & Hd & -> & Hid & Hnm)|(c' & nm & Hc' & Hj & ->)]].
    + by apply Hsame.
    + split; [done|]. apply deref_lookup in Hd as [Hp' Hl'].
      destruct (decide (l' = l)) as [->|Hne].
      * rewrite Hl in Hl'. injection Hl' as <-.
        exists (f pd). split; [|done]. apply session_spec. exists c, l.
        split; [done|]. split; [done|].
        unfold update. simpl. by rewrite list_lookup_alter_eq, Hl.
      * exists pd. split; [|done]. apply session_spec. exists c, l.
        split; [done|]. split; [done|].
        unfold update. simpl. by rewrite list_lookup_alter_ne.
    + assert (ws ≠ w) as Hne.
      { intros ->. rewrite Hc in Hc'. injection Hc' as <-.
        destruct (wf_closure _ Hwf _ _ Hc) as [->|(? & -> & _)]; done. }
      apply Hsame.
      * unfold enroll. by rewrite closure_of_set_closure_ne.
      * by apply heap_enroll_old.
  - injection H as <- _. apply Hsame; [apply closure_of_set_readyState|done].
  - injection H as H. apply (f_equal fst) in H. simpl in H. subst s'.
    unfold on_error. destruct (closure_of _ ws); cbn [fst];
      (apply Hsame; [apply closure_of_set_readyState|done]).
  - injection H as H. apply (f_equal fst) in H. simpl in H. subst s'.
    rewrite on_close_state. destruct (closure_of _ ws);
      (apply Hsame; [apply closure_of_set_readyState|done]).
  - injection H as H. apply (f_equal fst) in H. simpl in H. subst s'.
    apply Hsame; [apply closure_of_heartbeat|].
    destruct (heartbeat_loop_state now (players s) s) as (_ & Hh & _).
    unfold heartbeat. by rewrite Hh.
Qed.

Lemma run_keeps_identity evs s s' out w pd :
  wf s → session s w = Some pd → run evs s = Some (s', out) →
  closure_of s' w = closure_of s w
  ∧ ∃ pd', session s' w = Some pd' ∧ id pd' = id pd ∧ name pd' = name pd.
Proof.
  revert s out pd. induction evs as [|e evs IH]; intros s out pd Hwf Hs H; simpl in H.
  - injection H as <- _. split; [done|]. by exists pd.
  - destruct (step e s) as [[s1 o1]|] eqn:E; simpl in H; [|done].
    destruct (run evs s1) as [[s2 o2]|] eqn:E2; simpl in H; [|done].
    injection H as <- _.
    destruct (step_keeps_identity e s s1 o1 w pd Hwf Hs E) as (Hc1 & pd1 & Hs1 & Hi1 & Hn1).
    destruct (IH s1 o2 pd1 (wf_step _ _ _ _ Hwf E) Hs1 E2) as (Hc2 & pd2 & Hs2 & Hi2 & Hn2).
    split; [congruence|]. exists pd2. split; [done|]. split; congruence.
Qed.

(** X2.  Once a connection has joined, nothing the loop handles
    afterwards changes its closure (it stays joined, with the same
    record) nor the id and the name in its record. *)
Theorem id_and_name_never_change evs s s' out w pd :
  reachable StringToNumber ToPrimitive s →
  session s w = Some pd →
  run evs s = Some (s', out) →
  closure_of s' w = closure_of s w
  ∧ ∃ pd', session s' w = Some pd' ∧ id pd' = id pd ∧ name pd' = name pd.
Proof.
  intros Hr. apply run_keeps_identity. by apply reachable_wf.
Qed.

(** X3.  The record of a connection is changed by that connection's
    own messages only: no connection, close, error or tick event, and
    no message of another connection, changes it. *)
Theorem only_own_messages_change_a_record e s s' out w pd :
  reachable StringToNumber ToPrimitive s →
  session s w = Some pd →
  (∀ raw rnd now, e ≠ EvMessage w raw rnd now) →
  step e s = Some (s', out) →
  session s' w = Some pd.
Proof.
  intros Hr Hs Hother H.
  pose proof (reachable_wf s Hr) as Hwf. pose proof (reachable_separate s Hr) as Hsep.
  destruct (step_keeps_identity e s s' out w pd Hwf Hs H) as (Hcl & _).
  apply session_spec in Hs as (c & l & Hc & Hp & Hl).
  apply session_spec. exists c, l. split; [by rewrite Hcl|]. split; [done|].
  destruct e as [|ws raw rnd now|ws|ws|ws|now]; simpl in H.
  - injection H as H. apply (f_equal fst) in H. simpl in H. subst s'.
    unfold on_connection. by destruct (MAX_PLAYERS <=? _).
  - assert (ws ≠ w) as Hne by (intros ->; by eapply Hother).
    apply on_message_shape in H
      as [->|[(c' & l' & pd0 & f & Hc' & _ & Hd & -> & _)|(c' & nm & Hc' & Hj & ->)]].
    + done.
    + apply deref_lookup in Hd as [Hp' _].
      assert (l' ≠ l) as Hl'.
      { intros ->. apply Hne. by eapply (Hsep ws w c' c l). }
      unfold update. simpl. by rewrite list_lookup_alter_ne.
    + by apply heap_enroll_old.
  - by injection H as <- _.
  - injection H as H. apply (f_equal fst) in H. simpl in H. subst s'.
    unfold on_error. by destruct (closure_of _ ws).
  - injection H as H. apply (f_equal fst) in H. simpl in H. subst s'.
    rewrite on_close_state. by destruct (closure_of _ ws).
  - injection H as H. apply (f_equal fst) in H. simpl in H. subst s'.
    destruct (heartbeat_loop_state now (players s) s) as (_ & Hh & _).
    unfold heartbeat. by rewrite Hh.
Qed.

(** ** Leaving, again *)

Lemma open_keys_after_close s ws m :
  List.filter (is_open (set_readyState ws 3 s)) (map fst m)
  = List.filter (is_open s) (map fst (map_delete ws m)).
Proof.
  unfold map_delete. induction m as [|[w l] m IH]; simpl; [done|].
  destruct (Nat.eqb_spec w ws) as [->|Hne]; simpl.
  - by rewrite is_open_closed.
  - rewrite is_open_set_readyState_ne by done. by rewrite IH.
Qed.

(** X4.  When the close event of a registered session arrives, its
    entry is removed, no record changes, and [leave] with its id goes
    exactly once to each of the other registered connections that are
    open, and to nobody else. *)
Theorem close_announces_to_the_others s ws l pd s' out :
  wf s →
  (ws, l) ∈ players s → heap s !! l = Some pd →
  step (EvClose ws) s = Some (s', out) →
  players s' = map_delete ws (players s)
  ∧ heap s' = heap s
  ∧ (ws ∉ keys s')
  ∧ out = map (fun w => Send w (PLeave (id pd))) (List.filter (is_open s) (keys s'))
  ∧ (∀ w, w ∈ keys s' → is_open s w = true → leaves_to w (id pd) out = 1)
  ∧ (∀ w, w ∉ keys s' → leaves_to w (id pd) out = 0).
Proof.
  intros Hwf Hin Hl H. simpl in H.
  rewrite (on_close_joined _ ws l pd) in H;
    [|rewrite closure_of_set_readyState; by apply (wf_entry _ Hwf)|done].
  injection H as <- <-. cbn [players heap set_players set_readyState].
  assert (NoDup (List.filter (is_open s) (map fst (map_delete ws (players s))))) as Hnd.
  { apply NoDup_list_filter, map_delete_NoDup, (wf_keys _ Hwf). }
  split; [done|]. split; [done|]. split; [apply map_delete_gone|].
  rewrite broadcast_all. unfold keys. cbn [players set_players set_readyState].
  rewrite open_keys_after_close. split; [done|]. split.
  - intros w Hw Ho. rewrite leaves_to_fanout by done. rewrite decide_True; [done|].
    apply list_elem_of_In, filter_In. by rewrite <- list_elem_of_In.
  - intros w Hw. rewrite leaves_to_fanout by done. rewrite decide_False; [done|].
    intros [Hw' _]%list_elem_of_In%filter_In. by apply Hw, list_elem_of_In.
Qed.

(** X5.  The close event of a connection that never joined changes
    nothing but the connection's state and sends nothing. *)
Theorem close_before_join_is_silent s ws c s' out :
  wf s →
  closure_of s ws = Some c → joined c = false →
  step (EvClose ws) s = Some (s', out) →
  out = [] ∧ s' = set_readyState ws 3 s.
Proof.
  intros Hwf Hc Hj H. simpl in H.
  destruct (wf_closure _ Hwf _ _ Hc) as [->|(l & -> & _)]; [|done].
  pose proof (pending_not_registered _ _ _ Hwf Hc Hj) as Hout.
  unfold on_close in H. rewrite closure_of_set_readyState, Hc in H.
  injection H as <- <-. split; [done|].
  unfold set_players. cbn [players set_readyState sockets heap].
  by rewrite map_delete_absent.
Qed.

(** X6.  The id a session is given at [join] is the id of its [leave]:
    whatever the loop handles between the join and the close event of
    the connection, the close listener broadcasts [leave] with the id
    that the [welcome] carried, to the registered connections that are
    open, and never to the leaving connection. *)
Theorem leave_carries_the_join_id ws c msg rnd now s s1 o1 evs s2 o2 s3 o3 :
  wf s →
  closure_of s ws = Some c → joined c = false →
  is_str (prop msg "type") "join" = true →
  on_message ws (Parsed msg) rnd now s = Some (s1, o1) →
  run evs s1 = Some (s2, o2) →
  step (EvClose ws) s2 = Some (s3, o3) →
  o3 = map (fun w => Send w (PLeave (genId rnd))) (List.filter (is_open s3) (keys s2))
  ∧ (ws ∉ keys s3)
  ∧ (∀ d, Send ws d ∉ o3).
Proof.
  intros Hwf Hc Hj Hty Hjoin Hrun Hclose.
  rewrite (on_message_join ws c) in Hjoin by done. unfold on_join in Hjoin.
  destruct (name_field (prop msg "name")) as [nm|]; simpl in Hjoin; [|done].
  injection Hjoin as <- _.
  set (pd0 := new_player (genId rnd) nm now) in *.
  assert (wf (enroll ws pd0 s)) as Hwf1 by by eapply wf_enroll.
  assert (session (enroll ws pd0 s) ws = Some pd0) as Hs1.
  { apply session_spec. exists (Closure true (Some (length (heap s)))), (length (heap s)).
    split; [|split; [done|apply heap_enroll_new]].
    unfold enroll. rewrite closure_of_set_closure; [done|]. by eapply closure_of_lt. }
  destruct (run_keeps_identity evs _ s2 o2 ws pd0 Hwf1 Hs1 Hrun)
    as (Hc2 & pd2 & Hs2 & Hid & _).
  apply session_spec in Hs2 as (c2 & l2 & Hc2' & Hp2 & Hl2).
  assert (c2 = Closure true (Some (length (heap s)))) as ->.
  { rewrite Hc2' in Hc2. unfold enroll in Hc2.
    rewrite closure_of_set_closure in Hc2 by by eapply closure_of_lt.
    by injection Hc2. }
  simpl in Hp2. injection Hp2 as <-.
  simpl in Hclose.
  rewrite (on_close_joined _ ws (length (heap s)) pd2) in Hclose;
    [|by rewrite closure_of_set_readyState|done].
  injection Hclose as <- <-. rewrite Hid. split; [|split].
  - by rewrite broadcast_all.
  - apply map_delete_gone.
  - intros d (w & [= <- _] & _ & _ & Ho)%broadcast_elem.
    by rewrite is_open_closed in Ho.
Qed.

(** ** The heartbeat, again *)



(** ** The branches of the message listener *)

(** The listener of a joined connection, by message type. *)
Lemma on_message_joined ws c msg ty rnd now s :
  closure_of s ws = Some c → joined c = true → type_of msg = Some ty →
  on_message ws (Parsed msg) rnd now s
  = if is_str ty "move" then on_move StringToNumber ToPrimitive ws c msg s
    else if is_str ty "chat" then on_chat ws c msg s
    else if is_str ty "equip" then on_equip ws c msg s
    else if is_str ty "stats" then on_stats StringToNumber ToPrimitive ws c msg s
    else if is_str ty "attack" then on_attack StringToNumber ToPrimitive ws c msg s
    else if is_str ty "enemyKill" then on_enemyKill ws c msg s
    else if is_str ty "groundDrop"
         then on_groundDrop StringToNumber ToPrimitive ws c msg s
    else if is_str ty "pong" then on_pong c now s
    else Some (s, []).
Proof.
  intros Hc Hj Hty. unfold on_message. rewrite Hc, Hty, Hj. simpl.
  by rewrite andb_false_r.
Qed.

Lemma on_message_typed ws c msg k rnd now s :
  closure_of s ws = Some c → joined c = true →
  is_str (prop msg "type") k = true →
  on_message ws (Parsed msg) rnd now s
  = if is_str (VStr (lit k)) "move" then on_move StringToNumber ToPrimitive ws c msg s
    else if is_str (VStr (lit k)) "chat" then on_chat ws c msg s
    else if is_str (VStr (lit k)) "equip" then on_equip ws c msg s
    else if is_str (VStr (lit k)) "stats"
         then on_stats StringToNumber ToPrimitive ws c msg s
    else if is_str (VStr (lit k)) "attack"
         then on_attack StringToNumber ToPrimitive ws c msg s
    else if is_str (VStr (lit k)) "enemyKill" then on_enemyKill ws c msg s
    else if is_str (VStr (lit k)) "groundDrop"
         then on_groundDrop StringToNumber ToPrimitive ws c msg s
    else if is_str (VStr (lit k)) "pong" then on_pong c now s
    else Some (s, []).
Proof.
  intros Hc Hj Hty. by apply on_message_joined, type_of_str.
Qed.

(** X8.  Before it has joined, a connection's frames change nothing
    and send nothing, unless they are a [join]: a frame that does not
    parse and a message of any other type are both dropped. *)
Theorem pending_ignores_all_but_join ws c raw rnd now s :
  closure_of s ws = Some c → joined c = false →
  (raw = SyntaxError
   ∨ ∃ msg ty, raw = Parsed msg ∧ type_of msg = Some ty ∧ is_str ty "join" = false) →
  on_message ws raw rnd now s = Some (s, []).
Proof.
  intros Hc Hj [->|(msg & ty & -> & Hty & Hnj)]; unfold on_message; rewrite Hc; [done|].
  rewrite Hty. simpl. by rewrite Hnj, Hj.
Qed.

(** X9.  Once a connection has joined, a second [join] and a message
    of any type the listener has no branch for change nothing and send
    nothing. *)
Theorem joined_ignores_join_and_unknown ws c msg ty rnd now s :
  closure_of s ws = Some c → joined c = true →
  type_of msg = Some ty →
  is_str ty "join" = true ∨ handled_when_joined ty = false →
  on_message ws (Parsed msg) rnd now s = Some (s, []).
Proof.
  intros Hc Hj Hty Hcase.
  assert (handled_when_joined ty = false) as Hun.
  { destruct Hcase as [->%is_str_true|H]; done. }
  rewrite (on_message_joined ws c msg ty) by done.
  unfold handled_when_joined in Hun.
  repeat (apply orb_false_iff in Hun as [Hun ?]).
  by repeat match goal with H : is_str ty _ = false |- _ => rewrite H; clear H end.
Qed.

(** X10.  The listener throws, for want of a check, on the frame
    [null]; on a [join] whose name is truthy but not a string; on a
    [chat] whose text is truthy but not a string; and on a
    [groundDrop] whose itemId is truthy but neither a string nor an
    array. *)
Theorem malformed_fields_throw ws c rnd now s :
  closure_of s ws = Some c →
  on_message ws (Parsed VNull) rnd now s = None
  ∧ (∀ msg, joined c = false →
            is_str (prop msg "type") "join" = true →
            ToBoolean (prop msg "name") = true →
            (∀ t, prop msg "name" ≠ VStr t) →
            on_message ws (Parsed msg) rnd now s = None)
  ∧ (∀ msg, joined c = true →
            is_str (prop msg "type") "chat" = true →
            ToBoolean (prop msg "text") = true →
            (∀ t, prop msg "text" ≠ VStr t) →
            on_message ws (Parsed msg) rnd now s = None)
  ∧ (∀ msg, joined c = true →
            is_str (prop msg "type") "groundDrop" = true →
            ToBoolean (prop msg "itemId") = true →
            (∀ t, prop msg "itemId" ≠ VStr t) →
            (∀ a, prop msg "itemId" ≠ VArr a) →
            on_message ws (Parsed msg) rnd now s = None).
Proof.
  intros Hc. split; [|split; [|split]].
  - unfold on_message. by rewrite Hc.
  - intros msg Hj Hty Ht Hns. rewrite (on_message_join ws c) by done.
    unfold on_join, name_field, js_or. rewrite Ht.
    destruct (prop msg "name") eqn:E; try done. by destruct (Hns s0).
  - intros msg Hj Hty Ht Hns. rewrite (on_message_typed ws c msg "chat") by done.
    cbn [is_str]. unfold on_chat, text_field, js_or. rewrite Ht.
    destruct (prop msg "text") eqn:E; try done. by destruct (Hns s0).
  - intros msg Hj Hty Ht Hns Hna.
    rewrite (on_message_typed ws c msg "groundDrop") by done. cbn [is_str].
    assert (itemId_field (prop msg "itemId") = None) as Hi.
    { unfold itemId_field, js_or. rewrite Ht.
      destruct (prop msg "itemId") eqn:E; try done.
      - by destruct (Hns s0).
      - by destruct (Hna elems). }
    unfold on_groundDrop. rewrite Hi.
    destruct (deref c s) as [[l pd]|]; simpl; [|done].
    destruct (number_or (prop msg "x") 0); simpl; [|done].
    by destruct (number_or (prop msg "z") 0).
Qed.

(** X11.  A [pong] of a registered session sends nothing and changes
    only the [lastPing] of its record; a heartbeat tick at most 30000 ms
    after it neither removes the session nor terminates its
    connection. *)
Theorem pong_postpones_eviction ws c l msg rnd t now s :
  wf s →
  closure_of s ws = Some c → joined c = true → (ws, l) ∈ players s →
  is_str (prop msg "type") "pong" = true →
  (now - t ≤ HEARTBEAT_TIMEOUT)%Z →
  ∃ pd s1,
    session s ws = Some pd
    ∧ on_message ws (Parsed msg) rnd t s = Some (s1, [])
    ∧ session s1 ws = Some (set_lastPing t pd)
    ∧ players s1 = players s
    ∧ (ws, l) ∈ players (fst (heartbeat now s1))
    ∧ Terminate ws ∉ snd (heartbeat now s1).
Proof.
  intros Hwf Hc Hj Hin Hty Hfresh.
  pose proof (wf_entry _ Hwf _ _ Hin) as Hc'. rewrite Hc in Hc'. injection Hc' as ->.
  destruct (wf_closure _ Hwf _ _ Hc) as [?|(l' & [= <-] & Hlt)]; [done|].
  destruct (lookup_lt_is_Some_2 _ _ Hlt) as [pd Hpd].
  assert (deref (Closure true (Some l)) s = Some (l, pd)) as Hd
    by (by apply deref_lookup).
  set (s1 := update l (set_lastPing t) s).
  assert (heap s1 !! l = Some (set_lastPing t pd)) as Hpd1.
  { unfold s1, update. simpl. by rewrite list_lookup_alter_eq, Hpd. }
  assert (timed_out now (heap s1) (ws, l) = false) as Hto.
  { unfold timed_out. cbn [snd]. rewrite Hpd1. cbn [lastPing set_lastPing].
    apply Z.ltb_ge. lia. }
  exists pd, s1. split; [|split; [|split; [|split; [|split]]]].
  - apply session_spec. by exists (Closure true (Some l)), l.
  - rewrite (on_message_typed ws _ msg "pong") by done. cbn [is_str].
    unfold on_pong. by rewrite Hd.
  - apply session_spec. by exists (Closure true (Some l)), l.
  - done.
  - rewrite (heartbeat_players now s1) by apply (wf_keys _ Hwf).
    unfold survivors. apply list_elem_of_In, filter_In.
    split; [by apply list_elem_of_In|]. by rewrite Hto.
  - intros Hd'. unfold heartbeat in Hd'.
    apply heartbeat_loop_out in Hd' as ([w l'] & He & [[Ht Heq]|[_ Heq]]); [|done].
    injection Heq as <-.
    assert ((ws, l') = (ws, l)) as [= ->].
    { by apply (keys_inj (players s)); [apply (wf_keys _ Hwf)| | |]. }
    by rewrite Hto in Ht.
Qed.

Lemma strip_all_denied cls l : Forall (λ ch, ch ∈ cls) l → strip cls l = [].
Proof.
  unfold strip. induction 1 as [|ch r Hch _ IH]; simpl; [done|].
  apply in_class_spec in Hch. by rewrite Hch.
Qed.

(** X12.  A [chat] whose text is empty once sanitised is dropped:
    nothing is sent and nothing changes.  That is the case of a missing
    or falsy text and of a text whose first 200 characters are all
    among [<], [>], [&]. *)
Theorem empty_chat_is_dropped ws c msg rnd now s :
  closure_of s ws = Some c → joined c = true →
  is_str (prop msg "type") "chat" = true →
  (text_field (prop msg "text") = Some [] →
   on_message ws (Parsed msg) rnd now s = Some (s, []))
  ∧ (ToBoolean (prop msg "text") = false → text_field (prop msg "text") = Some [])
  ∧ (∀ t, prop msg "text" = VStr t →
          Forall (λ ch, ch ∈ chat_denied) (take 200 t) →
          text_field (prop msg "text") = Some []).
Proof.
  intros Hc Hj Hty. split; [|split].
  - intros Ht. rewrite (on_message_typed ws c msg "chat") by done. cbn [is_str].
    unfold on_chat. by rewrite Ht.
  - intros Hf. unfold text_field, js_or. by rewrite Hf.
  - intros t -> Hall. unfold text_field, js_or, ToBoolean, jsstr_eqb.
    assert (sanitize_chat t = []) as Hs.
    { unfold sanitize_chat, slice0. by apply strip_all_denied. }
    destruct (decide (t = [])) as [->|Hne]; [done|].
    rewrite bool_decide_eq_false_2 by done. simpl. by rewrite Hs.
Qed.

(** X13.  [chat], [attack], [enemyKill] and [groundDrop] are relays
    only: handling one leaves the registry, the records and the
    connections as they were. *)
Theorem relays_keep_no_state ws c msg rnd now s s' out :
  closure_of s ws = Some c → joined c = true →
  stateless_type (prop msg "type") = true →
  on_message ws (Parsed msg) rnd now s = Some (s', out) →
  s' = s.
Proof.
  intros Hc Hj Hty H. unfold stateless_type in Hty.
  repeat (apply orb_true_iff in Hty as [Hty|Hty]).
  - rewrite (on_message_typed ws c msg "chat") in H by done. cbn [is_str] in H.
    unfold on_chat in H. by peel H.
  - rewrite (on_message_typed ws c msg "attack") in H by done. cbn [is_str] in H.
    unfold on_attack in H. by peel H.
  - rewrite (on_message_typed ws c msg "enemyKill") in H by done. cbn [is_str] in H.
    unfold on_enemyKill in H. by peel H.
  - rewrite (on_message_typed ws c msg "groundDrop") in H by done. cbn [is_str] in H.
    unfold on_groundDrop in H. by peel H.
Qed.

(** ** What the state-changing messages store *)

Lemma number_or_eq v n d :
  Number v = Some n → number_or v d = Some (num_or n (Fin d)).
Proof. intros H. unfold number_or. by rewrite H. Qed.

Lemma num_or_truthy n d :
  num_truthy (Fin d) = true → num_truthy (num_or n (Fin d)) = true.
Proof. intros Hd. unfold num_or. by destruct (num_truthy n) eqn:E. Qed.

(** X14.  A [move] whose coordinates convert to numbers stores
    [Number(v) || 0] for each of x, z, ry and [!!moving] in the
    sender's record, leaving its other fields alone, and broadcasts
    exactly the stored values to the other sessions.  No stored
    coordinate is ever [NaN]. *)
Theorem move_stores_and_relays ws c msg rnd now s nx nz nry :
  wf s →
  closure_of s ws = Some c → joined c = true →
  is_str (prop msg "type") "move" = true →
  Number (prop msg "x") = Some nx →
  Number (prop msg "z") = Some nz →
  Number (prop msg "ry") = Some nry →
  ∃ l pd,
    deref c s = Some (l, pd)
    ∧ on_message ws (Parsed msg) rnd now s
      = Some (update l (set_position (num_or nx (Fin 0)) (num_or nz (Fin 0))
                                     (num_or nry (Fin 0))
                                     (ToBoolean (prop msg "moving"))) s,
              broadcast s (PMove (id pd) (num_or nx (Fin 0)) (num_or nz (Fin 0))
                                 (num_or nry (Fin 0))
                                 (ToBoolean (prop msg "moving")))
                        (Some ws))
    ∧ num_or nx (Fin 0) ≠ NaN ∧ num_or nz (Fin 0) ≠ NaN ∧ num_or nry (Fin 0) ≠ NaN.
Proof.
  intros Hwf Hc Hj Hty Hx Hz Hr.
  destruct (wf_deref s ws c Hwf Hc Hj) as (l & pd & Hd). exists l, pd.
  split; [done|]. split; [|repeat split; apply num_or_not_NaN].
  rewrite (on_message_move ws c) by done. unfold on_move.
  rewrite Hd. simpl.
  rewrite (number_or_eq (prop msg "x") nx) by done. simpl.
  rewrite (number_or_eq (prop msg "z") nz) by done. simpl.
  rewrite (number_or_eq (prop msg "ry") nry) by done. simpl.
  by rewrite (deref_update c s l pd).
Qed.

(** X15.  An [equip] never throws.  It replaces the equipment of the
    sender's record by the value received, or by the empty object when
    that value is missing or falsy, so that the stored equipment is
    always truthy, and broadcasts it to the other sessions. *)
Theorem equip_replaces_equipment ws c msg rnd now s :
  wf s →
  closure_of s ws = Some c → joined c = true →
  is_str (prop msg "type") "equip" = true →
  ∃ l pd,
    deref c s = Some (l, pd)
    ∧ on_message ws (Parsed msg) rnd now s
      = Some (update l (set_equipment (js_or (prop msg "equipment") (VObj []))) s,
              broadcast s (PEquip (id pd) (js_or (prop msg "equipment") (VObj [])))
                        (Some ws))
    ∧ ToBoolean (js_or (prop msg "equipment") (VObj [])) = true.
Proof.
  intros Hwf Hc Hj Hty.
  destruct (wf_deref s ws c Hwf Hc Hj) as (l & pd & Hd). exists l, pd.
  split; [done|]. split.
  - rewrite (on_message_typed ws c msg "equip") by done. cbn [is_str].
    unfold on_equip. rewrite Hd. simpl. by rewrite (deref_update c s l pd).
  - unfold js_or. by destruct (ToBoolean (prop msg "equipment")) eqn:E.
Qed.

(** X16.  A [stats] whose numbers convert replaces the stats of the
    sender's record by [level || 1], [combatStyle || 'nano'],
    [hp || 100], [maxHp || 100], [area || 'station-hub'] and broadcasts
    them to the others.  The stored level, hp and maxHp are never zero
    nor [NaN]: a reported hp of 0 is stored and relayed as 100. *)
Theorem stats_are_never_zero ws c msg rnd now s lv h mh :
  wf s →
  closure_of s ws = Some c → joined c = true →
  is_str (prop msg "type") "stats" = true →
  Number (prop msg "level") = Some lv →
  Number (prop msg "hp") = Some h →
  Number (prop msg "maxHp") = Some mh →
  ∃ l pd st,
    deref c s = Some (l, pd)
    ∧ st = Stats (num_or lv (Fin 1))
                 (js_or (prop msg "combatStyle") (VStr (lit "nano")))
                 (num_or h (Fin 100)) (num_or mh (Fin 100))
                 (js_or (prop msg "area") (VStr (lit "station-hub")))
    ∧ on_message ws (Parsed msg) rnd now s
      = Some (update l (set_stats st) s, broadcast s (PStats (id pd) st) (Some ws))
    ∧ (num_truthy (level st) = true ∧ num_truthy (hp st) = true
       ∧ num_truthy (maxHp st) = true)
    ∧ (∀ p, h = Fin p → (p == 0)%Q → hp st = Fin 100).
Proof.
  intros Hwf Hc Hj Hty Hl Hh Hm.
  destruct (wf_deref s ws c Hwf Hc Hj) as (l & pd & Hd).
  eexists l, pd, _. split; [done|]. split; [reflexivity|]. split; [|split].
  - rewrite (on_message_typed ws c msg "stats") by done. cbn [is_str].
    unfold on_stats. rewrite Hd. simpl.
    rewrite (number_or_eq (prop msg "level") lv) by done. simpl.
    rewrite (number_or_eq (prop msg "hp") h) by done. simpl.
    rewrite (number_or_eq (prop msg "maxHp") mh) by done. simpl.
    by rewrite (deref_update c s l pd).
  - cbn [level hp maxHp]. repeat split; by apply num_or_truthy.
  - intros p -> Hp. cbn [hp]. unfold num_or. by rewrite num_truthy_zero.
Qed.

(** X17.  The itemId a [groundDrop] broadcasts is the first 64
    characters of the string received, the empty string when the field
    is missing or falsy, or, when an array is received, the array of
    its first 64 elements. *)
Theorem groundDrop_itemId_capped ws c msg rnd now s s' out w d :
  closure_of s ws = Some c → joined c = true →
  is_str (prop msg "type") "groundDrop" = true →
  on_message ws (Parsed msg) rnd now s = Some (s', out) →
  Send w d ∈ out →
  ∃ i nm gx gz item q,
    d = PGroundDrop i nm gx gz item q
    ∧ ((∃ t, js_or (prop msg "itemId") (VStr []) = VStr t
             ∧ item = VStr (take 64 t) ∧ length (take 64 t) ≤ 64)
       ∨ (∃ a, prop msg "itemId" = VArr a
               ∧ item = VArr (take 64 a) ∧ length (take 64 a) ≤ 64)).
Proof.
  intros Hc Hj Hty H Hin.
  rewrite (on_message_groundDrop ws c) in H by done.
  apply on_groundDrop_inv in H
    as (l & pd & gx & gz & item & q & _ & _ & _ & Hi & _ & _ & ->).
  apply broadcast_payload in Hin as ->.
  exists (id pd), (name pd), gx, gz, item, q. split; [done|].
  unfold itemId_field in Hi.
  destruct (js_or (prop msg "itemId") (VStr [])) eqn:E; try done.
  - injection Hi as <-. left. exists s0. repeat split. apply firstn_le_length.
  - injection Hi as <-. right. exists elems. repeat split; [|apply firstn_le_length].
    unfold js_or in E. by destruct (ToBoolean (prop msg "itemId")).
Qed.

(** ** Ids *)

(** X18.  A session id has at most 8 characters, fewer when the text of
    the random number is short, and depends only on the eight digits
    that follow the leading [0.]: two draws that agree on their first
    ten characters give the same id. *)
Theorem genId_reads_eight_digits r1 r2 :
  length (genId r1) = Nat.min 8 (length r1 - 2)
  ∧ (take 10 r1 = take 10 r2 → genId r1 = genId r2).
Proof.
  unfold genId, slice. split.
  - by rewrite length_take, length_drop.
  - intros H.
    assert (∀ r : list N, take (10 - 2) (drop 2 r) = drop 2 (take 10 r)) as Hswap.
    { intros r. rewrite skipn_firstn_comm. done. }
    by rewrite !Hswap, H.
Qed.

(** ** Broadcasting *)

(** X19.  A broadcast sends its payload, unchanged, exactly once to
    each registered connection that is open and is not the excluded
    one, and to nobody else; so it never sends more messages than
    there are registered sessions. *)
Theorem broadcast_reaches_each_once s d ex :
  wf s →
  NoDup (broadcast s d ex)
  ∧ length (broadcast s d ex) ≤ length (players s)
  ∧ (∀ a, a ∈ broadcast s d ex
          ↔ ∃ w, a = Send w d ∧ w ∈ keys s ∧ ex ≠ Some w ∧ is_open s w = true).
Proof.
  intros Hwf. rewrite broadcast_alt. split; [|split].
  - assert (Inj eq eq (fun w : nat => Send w d)) as Hinj
      by (by intros w1 w2 [= ->]).
    apply (NoDup_fmap_2 (fun w => Send w d)), NoDup_list_filter, (wf_keys _ Hwf).
  - rewrite length_map. etrans; [apply filter_length_le|].
    unfold keys. by rewrite length_map.
  - intros a. rewrite <- broadcast_alt, broadcast_elem. split.
    + intros (w & -> & Hk & Hx & Ho). exists w. repeat split; try done.
      intros ->. simpl in Hx. by rewrite Nat.eqb_refl in Hx.
    + intros (w & -> & Hk & Hx & Ho). exists w. repeat split; try done.
      destruct ex as [e|]; [|done]. simpl.
      apply Nat.eqb_neq. intros ->. by apply Hx.
Qed.

(** ** Turning connections away *)

(** X20.  A connection accepted while the registry holds
    [MAX_PLAYERS] entries or more is sent [Server full] and closed;
    the registry and the records stay as they were; and whatever the
    loop handles afterwards, that connection is never registered and
    every frame it sends is ignored. *)
Theorem full_server_turns_away s s1 o1 evs s2 o2 :
  wf s →
  MAX_PLAYERS ≤ length (players s) →
  step EvConnection s = Some (s1, o1) →
  run evs s1 = Some (s2, o2) →
  o1 = [Send (length (sockets s)) (PError (lit "Server full"));
        Close (length (sockets s))]
  ∧ (players s1 = players s ∧ heap s1 = heap s)
  ∧ (length (sockets s) ∉ keys s2)
  ∧ (∀ raw rnd now,
        on_message (length (sockets s)) raw rnd now s2 = Some (s2, [])).
Proof.
  intros Hwf Hfull Hstep Hrun.
  destruct (full_registry_rejects s Hfull) as [Hrej Hnone].
  rewrite Hrej in Hstep. injection Hstep as <- <-.
  destruct (rejected_never_registered evs (accept s) s2 o2 (length (sockets s)))
    as [Hc2 Hout]; try done.
  - by apply wf_accept.
  - unfold accept. simpl. rewrite length_app. simpl. lia.
  - split; [done|]. split; [done|]. split; [done|].
    intros raw rnd now. unfold on_message. by rewrite Hc2.
Qed.

(** * Closing, over a run *)

(** ** What sends [leave] *)



(** ** The ids in the heap *)



(** ** A run without the close event of [ws] *)


(** ** Eviction, then the close event *)




(** ** Closing twice *)




End Relay.

(** * Worked runs *)

Example lobby_state :
  keys lobby = [0; 1]
  ∧ live_ids lobby = [lit "4fzyo82m"; lit "k3n9x71q"]
  ∧ heap lobby !! 0 = Some alice.
Proof. by vm_compute. Qed.

Lemma lobby_wf : wf lobby.
Proof.
  apply (wf_run text_to_NaN no_primitive lobby_events init lobby
                (sent_by lobby_events init) wf_init).
  by vm_compute.
Qed.

Lemma lobby_reachable : reachable text_to_NaN no_primitive lobby.
Proof. exists lobby_events, (sent_by lobby_events init). by vm_compute. Qed.

(** ** Capacity *)

(** C1.  Twenty-one connections are accepted while the registry is
    empty, so none of them is turned away; each then joins, and no join
    is checked against the capacity: the run ends with twenty-one
    registered sessions, one more than [MAX_PLAYERS], and no
    [Server full] notice was sent. *)
Theorem crowd_exceeds_capacity :
  length crowd_events = 42
  ∧ length (players (state_after crowd_events)) = 21
  ∧ MAX_PLAYERS < length (players (state_after crowd_events))
  ∧ keys (state_after crowd_events) = seq 0 21
  ∧ List.filter (fun a => match a with
                          | Send _ (PError _) | Close _ => true
                          | _ => false
                          end)
                (sent_by crowd_events init) = [].
Proof. by vm_compute. Qed.

(** ** Session ids *)

(** C3 fails as stated: two connections whose joins draw the same
    random number are registered with the same id. *)
Lemma same_draw_same_id :
  run text_to_NaN no_primitive twin_events init
  = Some (state_after twin_events, sent_by twin_events init)
  ∧ keys (state_after twin_events) = [0; 1]
  ∧ live_ids (state_after twin_events) = [lit "i"; lit "i"]
  ∧ ¬ NoDup (live_ids (state_after twin_events)).
Proof.
  split; [by vm_compute|]. split; [by vm_compute|]. split; [by vm_compute|].
  intros H. change (live_ids (state_after twin_events)) with [lit "i"; lit "i"] in H.
  apply NoDup_cons in H as [H _]. apply H. by left.
Qed.

Lemma ids_unique_witness :
  NoDup (draws lobby_events) ∧ NoDup (live_ids lobby).
Proof.
  assert (NoDup (draws lobby_events)) as HD.
  { apply (bool_decide_unpack (NoDup (draws lobby_events))). by vm_compute. }
  split; [exact HD|].
  apply (ids_unique_when_draws_distinct text_to_NaN no_primitive lobby_events lobby
           (sent_by lobby_events init) HD).
  by vm_compute.
Defined.

(** ** Heartbeat *)



(** ** Closing *)

(** Alice's connection is closed twice: by an error event, or two,
    before its close event, and by the heartbeat before its close event.
    Bob is sent her [leave] once each time. *)
Example closed_twice_runs :
  sent_by [EvClose 0] lobby = [Send 1 (PLeave (lit "4fzyo82m"))]
  ∧ sent_by [EvError 0; EvClose 0] lobby = [Send 1 (PLeave (lit "4fzyo82m"))]
  ∧ sent_by [EvError 0; EvError 0; EvClose 0] lobby = [Send 1 (PLeave (lit "4fzyo82m"))]
  ∧ state_after (lobby_events ++ [EvError 0; EvClose 0])
    = state_after (lobby_events ++ [EvClose 0])
  ∧ sent_by [EvTick 31001; EvClose 0] lobby
    = [Terminate 0; Send 1 PPing; Send 1 (PLeave (lit "4fzyo82m"))]
  ∧ keys (state_after (lobby_events ++ [EvTick 31001; EvClose 0])) = [1].
Proof. by vm_compute. Qed.


Lemma state_after_wf evs : wf (state_after evs).
Proof.
  unfold state_after.
  destruct (run text_to_NaN no_primitive evs init) as [[s out]|] eqn:E.
  - eapply wf_run; [apply wf_init | exact E].
  - apply wf_init.
Qed.

(** ** Sanitisation *)


(** The two quote characters (code units 34 and 39) are removed from
    names, and kept in chat text. *)
Example quotes_leave_names_only :
  sanitize_name [34; 65; 39; 66]%N = [65; 66]%N
  ∧ sanitize_chat [34; 65; 39; 66]%N = [34; 65; 39; 66]%N.
Proof. by vm_compute. Qed.

(** The default of the [join] handler is applied before the name is
    sanitised: a name made of denied characters only becomes the empty
    name, and it is the empty input that becomes [Player]. *)
Example name_default_precedes_sanitising :
  name_field (VStr (lit "<>")) = Some []
  ∧ name_field (VStr []) = Some (lit "Player").
Proof. by vm_compute. Qed.

(** ** Who receives what *)

Lemma chat_echo_witness :
  on_message text_to_NaN no_primitive 0 (Parsed (msg_chat "hi")) [] 0 lobby
  = Some (lobby, [Send 0 (PChat (lit "4fzyo82m") (lit "Alice") (lit "hi"));
                  Send 1 (PChat (lit "4fzyo82m") (lit "Alice") (lit "hi"))])
  ∧ ∀ s' out d,
      on_message text_to_NaN no_primitive 0 (msg_move 5 0 0 true) [] 0 lobby
      = Some (s', out) →
      Send 0 d ∉ out.
Proof.
  destruct (chat_is_the_only_echo text_to_NaN no_primitive 0 (Closure true (Some 0))
              (msg_chat "hi") [] 0 lobby lobby_wf eq_refl) as [Hchat _].
  destruct (Hchat eq_refl eq_refl (lit "hi") eq_refl ltac:(discriminate))
    as (l & pd & Hd & Hrun & _).
  injection Hd as <- <-.
  split; [rewrite Hrun; by vm_compute|].
  intros s' out d Hmove Hin.
  destruct (chat_is_the_only_echo text_to_NaN no_primitive 0 (Closure true (Some 0))
              (VObj [(lit "type", VStr (lit "move")); (lit "x", VNum (Fin 5));
                     (lit "z", VNum (Fin 0)); (lit "ry", VNum (Fin 0));
                     (lit "moving", VBool true)])
              [] 0 lobby lobby_wf eq_refl) as [_ Honly].
  destruct (Honly s' out d Hmove Hin) as [(_ & _ & H)|(_ & H & _)]; discriminate H.
Defined.

(** ** Joining *)

Lemma welcome_witness :
  ∃ s' roster,
    on_message text_to_NaN no_primitive 2 (msg_join "Carol") (lit "0.zq1") 30000
               lobby_with_guest
    = Some (s', [Send 2 (PWelcome (lit "zq1") roster);
                 Send 0 (PJoin (lit "zq1") (lit "Carol"));
                 Send 1 (PJoin (lit "zq1") (lit "Carol"))])
    ∧ roster = [Entry (lit "4fzyo82m") (lit "Alice") (Fin 0) (Fin 0) (Fin 0) false
                      (VObj []) default_stats;
                Entry (lit "k3n9x71q") (lit "Bob") (Fin 0) (Fin 0) (Fin 0) false
                      (VObj []) default_stats]
    ∧ players s' = [(0, 0); (1, 1); (2, 2)].
Proof.
  destruct (welcome_lists_the_others text_to_NaN no_primitive 2 (Closure false None)
              (VObj [(lit "type", VStr (lit "join")); (lit "name", VStr (lit "Carol"))])
              (lit "0.zq1") 30000 lobby_with_guest (lit "Carol")
              (state_after_wf _) eq_refl eq_refl eq_refl eq_refl)
    as (s' & roster & Hrun & _ & Hp & Hroster).
  (* the roster, read off the records of Alice and Bob *)
  assert (roster = [Entry (lit "4fzyo82m") (lit "Alice") (Fin 0) (Fin 0) (Fin 0) false
                          (VObj []) default_stats;
                    Entry (lit "k3n9x71q") (lit "Bob") (Fin 0) (Fin 0) (Fin 0) false
                          (VObj []) default_stats]) as Hr.
  { assert (players lobby_with_guest = [(0, 0); (1, 1)]) as E by by vm_compute.
    rewrite E in Hroster.
    apply Forall2_cons_inv_l in Hroster
      as (r0 & rest0 & (_ & op0 & _ & H0 & ->) & Hroster & ->).
    apply Forall2_cons_inv_l in Hroster
      as (r1 & rest1 & (_ & op1 & _ & H1 & ->) & Hroster & ->).
    apply Forall2_nil_inv_l in Hroster as ->.
    vm_compute in H0, H1. injection H0 as <-. injection H1 as <-. reflexivity. }
  subst roster. eexists s', _. split; [|split; [reflexivity|rewrite Hp; by vm_compute]].
  assert (on_message text_to_NaN no_primitive 2 (msg_join "Carol") (lit "0.zq1") 30000
                     lobby_with_guest
          = Some (state_after (lobby_events ++ [EvConnection;
                     EvMessage 2 (msg_join "Carol") (lit "0.zq1") 30000]),
                  [Send 2 (PWelcome (lit "zq1")
                             [Entry (lit "4fzyo82m") (lit "Alice") (Fin 0) (Fin 0) (Fin 0)
                                    false (VObj []) default_stats;
                              Entry (lit "k3n9x71q") (lit "Bob") (Fin 0) (Fin 0) (Fin 0)
                                    false (VObj []) default_stats]);
                   Send 0 (PJoin (lit "zq1") (lit "Carol"));
                   Send 1 (PJoin (lit "zq1") (lit "Carol"))])) as Hval
    by by vm_compute.
  unfold msg_join in *. rewrite Hrun in Hval. rewrite Hrun.
  by injection Hval as _ ->.
Defined.

(** The scenario of the specification: Alice moves, then Carol joins
    and finds Alice at her new position. *)
Example welcome_after_move :
  sent_by [EvMessage 0 (msg_move 5 0 0 true) [] 25000;
           EvConnection;
           EvMessage 2 (msg_join "Carol") (lit "0.zq1") 30000] lobby
  = [Send 1 (PMove (lit "4fzyo82m") (Fin 5) (Fin 0) (Fin 0) true);
     Send 2 (PWelcome (lit "zq1")
               [Entry (lit "4fzyo82m") (lit "Alice") (Fin 5) (Fin 0) (Fin 0) true
                      (VObj []) default_stats;
                Entry (lit "k3n9x71q") (lit "Bob") (Fin 0) (Fin 0) (Fin 0) false
                      (VObj []) default_stats]);
     Send 0 (PJoin (lit "zq1") (lit "Carol"));
     Send 1 (PJoin (lit "zq1") (lit "Carol"))].
Proof. by vm_compute. Qed.

(** Equipment and stats reach the roster as the session last sent
    them: Bob equips a blade and reports level 7, then Carol joins. *)
Example welcome_after_equip_and_stats :
  sent_by [EvMessage 1 (Parsed (msg_equip (VObj [(lit "hand", VStr (lit "blade"))]))) [] 25000;
           EvMessage 1 (Parsed (msg_stats 7 80 120)) [] 26000;
           EvConnection;
           EvMessage 2 (msg_join "Carol") (lit "0.zq1") 30000] lobby
  = [Send 0 (PEquip (lit "k3n9x71q") (VObj [(lit "hand", VStr (lit "blade"))]));
     Send 0 (PStats (lit "k3n9x71q")
               (Stats (Fin 7) (VStr (lit "nano")) (Fin 80) (Fin 120)
                      (VStr (lit "station-hub"))));
     Send 2 (PWelcome (lit "zq1")
               [Entry (lit "4fzyo82m") (lit "Alice") (Fin 0) (Fin 0) (Fin 0) false
                      (VObj []) default_stats;
                Entry (lit "k3n9x71q") (lit "Bob") (Fin 0) (Fin 0) (Fin 0) false
                      (VObj [(lit "hand", VStr (lit "blade"))])
                      (Stats (Fin 7) (VStr (lit "nano")) (Fin 80) (Fin 120)
                             (VStr (lit "station-hub")))]);
     Send 0 (PJoin (lit "zq1") (lit "Carol"));
     Send 1 (PJoin (lit "zq1") (lit "Carol"))].
Proof. by vm_compute. Qed.

Lemma join_without_name_witness :
  ∃ s',
    on_message text_to_NaN no_primitive 2 (Parsed msg_join_anonymous) (lit "0.zq1") 30000
               lobby_with_guest
    = Some (s', sendTo s' 2 (PWelcome (lit "zq1") (existing s' 2))
                ++ broadcast s' (PJoin (lit "zq1") (lit "Player")) (Some 2))
    ∧ heap s' !! 2 = Some (new_player (lit "zq1") (lit "Player") 30000)
    ∧ (2, 2) ∈ players s'.
Proof.
  destruct (join_without_name text_to_NaN no_primitive 2 (Closure false None)
              msg_join_anonymous (lit "0.zq1") 30000 lobby_with_guest
              eq_refl eq_refl eq_refl eq_refl)
    as (s' & Hrun & _ & Hheap & Hin & _).
  exists s'. split; [exact Hrun|]. split; [exact Hheap|exact Hin].
Defined.

(** ** The quantity of a ground drop *)

Lemma groundDrop_clamp_witness :
  on_message text_to_NaN no_primitive 0 (Parsed (msg_drop (VNum (Fin 5000)))) [] 0 lobby
  = Some (lobby, [Send 1 (PGroundDrop (lit "4fzyo82m") (lit "Alice") (Fin 3) (Fin 4)
                                      (VStr (lit "ore")) (Fin 1000))]).
Proof.
  destruct (groundDrop_quantity_clamped text_to_NaN no_primitive 0 (Closure true (Some 0))
              (msg_drop (VNum (Fin 5000))) [] 0 lobby eq_refl eq_refl eq_refl)
    as (_ & Hnum & _).
  destruct (Hnum (Fin 5000) 0 alice (Fin 3) (Fin 4) (VStr (lit "ore"))
                 eq_refl eq_refl eq_refl eq_refl eq_refl) as (Hrun & _ & Hcap).
  rewrite Hrun. rewrite (Hcap 5000%Q eq_refl) by reflexivity. by vm_compute.
Defined.


(** * Worked runs for the further properties *)

Lemma reachable_registry_witness :
  NoDup (keys lobby) ∧ NoDup (map snd (players lobby))
  ∧ closure_of lobby 1 = Some (Closure true (Some 1)).
Proof.
  destruct (reachable_registry text_to_NaN no_primitive lobby lobby_reachable)
    as (Hk & Hl & He & _).
  split; [exact Hk|]. split; [exact Hl|].
  apply (He 1 1). apply (bool_decide_unpack ((1, 1) ∈ players lobby)). by vm_compute.
Defined.

Lemma id_and_name_witness :
  ∃ pd', session (state_after (lobby_events
                                 ++ [EvMessage 0 (msg_move 5 0 0 true) [] 25000;
                                     EvMessage 0 (Parsed msg_pong) [] 26000;
                                     EvTick 30000])) 0 = Some pd'
         ∧ id pd' = lit "4fzyo82m" ∧ name pd' = lit "Alice".
Proof.
  destruct (id_and_name_never_change text_to_NaN no_primitive
              [EvMessage 0 (msg_move 5 0 0 true) [] 25000;
               EvMessage 0 (Parsed msg_pong) [] 26000; EvTick 30000]
              lobby
              (state_after (lobby_events
                              ++ [EvMessage 0 (msg_move 5 0 0 true) [] 25000;
                                  EvMessage 0 (Parsed msg_pong) [] 26000;
                                  EvTick 30000]))
              (sent_by [EvMessage 0 (msg_move 5 0 0 true) [] 25000;
                        EvMessage 0 (Parsed msg_pong) [] 26000; EvTick 30000] lobby)
              0 alice lobby_reachable)
    as (_ & pd' & Hs & Hi & Hn).
  - by vm_compute.
  - by vm_compute.
  - exists pd'. split; [exact Hs|]. split; [exact Hi|exact Hn].
Defined.

Lemma own_messages_witness :
  session (state_after (lobby_events ++ [EvMessage 1 (msg_move 5 0 0 true) [] 25000])) 0
  = Some alice.
Proof.
  apply (only_own_messages_change_a_record text_to_NaN no_primitive
           (EvMessage 1 (msg_move 5 0 0 true) [] 25000) lobby _
           (sent_by [EvMessage 1 (msg_move 5 0 0 true) [] 25000] lobby)
           0 alice lobby_reachable).
  - by vm_compute.
  - intros raw rnd now. discriminate.
  - by vm_compute.
Defined.

Lemma close_announces_witness :
  sent_by [EvClose 0] lobby = [Send 1 (PLeave (lit "4fzyo82m"))]
  ∧ players (state_after (lobby_events ++ [EvClose 0])) = [(1, 1)].
Proof.
  destruct (close_announces_to_the_others text_to_NaN no_primitive lobby 0 0 alice
              (state_after (lobby_events ++ [EvClose 0])) (sent_by [EvClose 0] lobby)
              lobby_wf)
    as (Hp & _ & _ & Hout & _).
  - apply (bool_decide_unpack ((0, 0) ∈ players lobby)). by vm_compute.
  - by vm_compute.
  - by vm_compute.
  - split; [rewrite Hout|rewrite Hp]; by vm_compute.
Defined.

Lemma close_before_join_witness :
  sent_by [EvClose 2] lobby_with_guest = []
  ∧ players (state_after (lobby_events ++ [EvConnection; EvClose 2])) = [(0, 0); (1, 1)].
Proof.
  destruct (close_before_join_is_silent text_to_NaN no_primitive lobby_with_guest 2
              (Closure false None)
              (state_after (lobby_events ++ [EvConnection; EvClose 2]))
              (sent_by [EvClose 2] lobby_with_guest)
              (state_after_wf _) eq_refl eq_refl)
    as (Hout & Hs).
  - by vm_compute.
  - split; [exact Hout|]. rewrite Hs. by vm_compute.
Defined.

Lemma leave_carries_the_join_id_witness :
  sent_by [EvClose 2]
          (state_after (lobby_events
                          ++ [EvConnection;
                              EvMessage 2 (msg_join "Carol") (lit "0.zq1") 30000;
                              EvMessage 0 (msg_move 5 0 0 true) [] 30500]))
  = [Send 0 (PLeave (lit "zq1")); Send 1 (PLeave (lit "zq1"))].
Proof.
  destruct (leave_carries_the_join_id text_to_NaN no_primitive 2 (Closure false None)
              (VObj [(lit "type", VStr (lit "join")); (lit "name", VStr (lit "Carol"))])
              (lit "0.zq1") 30000 lobby_with_guest
              (state_after (lobby_events
                              ++ [EvConnection;
                                  EvMessage 2 (msg_join "Carol") (lit "0.zq1") 30000]))
              (sent_by [EvMessage 2 (msg_join "Carol") (lit "0.zq1") 30000]
                       lobby_with_guest)
              [EvMessage 0 (msg_move 5 0 0 true) [] 30500]
              (state_after (lobby_events
                              ++ [EvConnection;
                                  EvMessage 2 (msg_join "Carol") (lit "0.zq1") 30000;
                                  EvMessage 0 (msg_move 5 0 0 true) [] 30500]))
              [Send 1 (PMove (lit "4fzyo82m") (Fin 5) (Fin 0) (Fin 0) true);
               Send 2 (PMove (lit "4fzyo82m") (Fin 5) (Fin 0) (Fin 0) true)]
              (state_after (lobby_events
                              ++ [EvConnection;
                                  EvMessage 2 (msg_join "Carol") (lit "0.zq1") 30000;
                                  EvMessage 0 (msg_move 5 0 0 true) [] 30500;
                                  EvClose 2]))
              (sent_by [EvClose 2]
                 (state_after (lobby_events
                                 ++ [EvConnection;
                                     EvMessage 2 (msg_join "Carol") (lit "0.zq1") 30000;
                                     EvMessage 0 (msg_move 5 0 0 true) [] 30500])))
              (state_after_wf _) eq_refl eq_refl eq_refl)
    as (Hout & _).
  - by vm_compute.
  - by vm_compute.
  - by vm_compute.
  - rewrite Hout. by vm_compute.
Defined.


Lemma pending_ignores_witness :
  on_message text_to_NaN no_primitive 2 (Parsed (msg_chat "hi")) [] 0 lobby_with_guest
  = Some (lobby_with_guest, [])
  ∧ on_message text_to_NaN no_primitive 2 SyntaxError [] 0 lobby_with_guest
    = Some (lobby_with_guest, []).
Proof.
  split.
  - apply (pending_ignores_all_but_join text_to_NaN no_primitive 2 (Closure false None));
      [reflexivity|reflexivity|].
    right. exists (msg_chat "hi"), (VStr (lit "chat")). by vm_compute.
  - apply (pending_ignores_all_but_join text_to_NaN no_primitive 2 (Closure false None));
      [reflexivity|reflexivity|]. by left.
Defined.

Lemma second_join_witness :
  on_message text_to_NaN no_primitive 0 (msg_join "Mallory") (lit "0.zzz") 5 lobby
  = Some (lobby, []).
Proof.
  apply (joined_ignores_join_and_unknown text_to_NaN no_primitive 0
           (Closure true (Some 0)) _ (VStr (lit "join")));
    [reflexivity|reflexivity|reflexivity|]. by left.
Defined.

Lemma malformed_fields_witness :
  on_message text_to_NaN no_primitive 0 (Parsed VNull) [] 0 lobby = None
  ∧ on_message text_to_NaN no_primitive 0 (Parsed msg_drop_numbered) [] 0 lobby = None
  ∧ on_message text_to_NaN no_primitive 2 (Parsed msg_join_numbered) [] 0 lobby_with_guest
    = None.
Proof.
  destruct (malformed_fields_throw text_to_NaN no_primitive 0 (Closure true (Some 0))
              [] 0 lobby eq_refl) as (Hnull & _ & _ & Hitem).
  destruct (malformed_fields_throw text_to_NaN no_primitive 2 (Closure false None)
              [] 0 lobby_with_guest eq_refl) as (_ & Hname & _).
  split; [exact Hnull|]. split.
  - apply Hitem; try reflexivity; intros ?; discriminate.
  - apply Hname; try reflexivity; intros ?; discriminate.
Defined.

Lemma pong_witness :
  ∃ s1,
    on_message text_to_NaN no_primitive 0 (Parsed msg_pong) [] 5000 lobby = Some (s1, [])
    ∧ session s1 0 = Some (set_lastPing 5000 alice)
    ∧ (0, 0) ∈ players (fst (heartbeat 35000 s1))
    ∧ (0 ∉ keys (fst (heartbeat 31001 lobby))).
Proof.
  destruct (pong_postpones_eviction text_to_NaN no_primitive 0 (Closure true (Some 0)) 0
              msg_pong [] 5000 35000 lobby lobby_wf eq_refl eq_refl)
    as (pd & s1 & Hs & Hrun & Hs1 & _ & Hstay & _).
  - apply (bool_decide_unpack ((0, 0) ∈ players lobby)). by vm_compute.
  - reflexivity.
  - by vm_compute.
  - assert (pd = alice) as -> by (vm_compute in Hs; by injection Hs).
    exists s1. split; [exact Hrun|]. split; [exact Hs1|]. split; [exact Hstay|].
    apply (bool_decide_unpack (0 ∉ keys (fst (heartbeat 31001 lobby)))). by vm_compute.
Defined.

Lemma empty_chat_witness :
  on_message text_to_NaN no_primitive 0 (Parsed (msg_chat "<&>")) [] 0 lobby
  = Some (lobby, []).
Proof.
  destruct (empty_chat_is_dropped text_to_NaN no_primitive 0 (Closure true (Some 0))
              (msg_chat "<&>") [] 0 lobby eq_refl eq_refl eq_refl)
    as (Hdrop & _ & Hdenied).
  apply Hdrop. apply (Hdenied (lit "<&>")); [reflexivity|].
  apply (bool_decide_unpack (Forall (λ ch, ch ∈ chat_denied) (take 200 (lit "<&>")))).
  by vm_compute.
Defined.

Lemma relays_keep_no_state_witness :
  on_message text_to_NaN no_primitive 0 (Parsed (msg_attack (VNum (Fin 12)))) [] 0 lobby
  = Some (lobby, [Send 1 (PAttack (lit "4fzyo82m") (lit "Alice") (VStr (lit "rat7"))
                                  (Fin 12) (VStr (lit "nano")) (Fin 0) (Fin 0))]).
Proof.
  assert (∃ s' out,
             on_message text_to_NaN no_primitive 0
                        (Parsed (msg_attack (VNum (Fin 12)))) [] 0 lobby
             = Some (s', out)
             ∧ out = [Send 1 (PAttack (lit "4fzyo82m") (lit "Alice") (VStr (lit "rat7"))
                                      (Fin 12) (VStr (lit "nano")) (Fin 0) (Fin 0))])
    as (s' & out & Hrun & ->).
  { eexists _, _. split; by vm_compute. }
  rewrite Hrun. f_equal. f_equal.
  apply (relays_keep_no_state text_to_NaN no_primitive 0 (Closure true (Some 0))
           (msg_attack (VNum (Fin 12))) [] 0 lobby s' _ eq_refl eq_refl eq_refl Hrun).
Defined.

Lemma move_witness :
  on_message text_to_NaN no_primitive 0 (Parsed msg_walk) [] 0 lobby
  = Some (update 0 (set_position (Fin 5) (Fin 0) (Fin 0) true) lobby,
          [Send 1 (PMove (lit "4fzyo82m") (Fin 5) (Fin 0) (Fin 0) true)]).
Proof.
  destruct (move_stores_and_relays text_to_NaN no_primitive 0 (Closure true (Some 0))
              msg_walk [] 0 lobby (Fin 5) NaN (Fin 0)
              lobby_wf eq_refl eq_refl eq_refl eq_refl eq_refl eq_refl)
    as (l & pd & Hd & Hrun & _).
  injection Hd as <- <-. rewrite Hrun. by vm_compute.
Defined.

Lemma equip_witness :
  on_message text_to_NaN no_primitive 0 (Parsed (msg_equip VNull)) [] 0 lobby
  = Some (update 0 (set_equipment (VObj [])) lobby,
          [Send 1 (PEquip (lit "4fzyo82m") (VObj []))]).
Proof.
  destruct (equip_replaces_equipment text_to_NaN no_primitive 0 (Closure true (Some 0))
              (msg_equip VNull) [] 0 lobby lobby_wf eq_refl eq_refl eq_refl)
    as (l & pd & Hd & Hrun & _).
  injection Hd as <- <-. rewrite Hrun. by vm_compute.
Defined.

Lemma stats_witness :
  on_message text_to_NaN no_primitive 0 (Parsed (msg_stats 5 0 80)) [] 0 lobby
  = Some (update 0 (set_stats (Stats (Fin 5) (VStr (lit "nano")) (Fin 100) (Fin 80)
                                     (VStr (lit "station-hub")))) lobby,
          [Send 1 (PStats (lit "4fzyo82m")
                          (Stats (Fin 5) (VStr (lit "nano")) (Fin 100) (Fin 80)
                                 (VStr (lit "station-hub"))))]).
Proof.
  destruct (stats_are_never_zero text_to_NaN no_primitive 0 (Closure true (Some 0))
              (msg_stats 5 0 80) [] 0 lobby (Fin 5) (Fin 0) (Fin 80)
              lobby_wf eq_refl eq_refl eq_refl eq_refl eq_refl eq_refl)
    as (l & pd & st & Hd & -> & Hrun & _).
  injection Hd as <- <-. rewrite Hrun. by vm_compute.
Defined.

Lemma itemId_witness :
  ∃ i nm gx gz q,
    sent_by [EvMessage 0 (Parsed (msg_drop (VNum (Fin 2)))) [] 0] lobby
    = [Send 1 (PGroundDrop i nm gx gz (VStr (lit "ore")) q)].
Proof.
  destruct (groundDrop_itemId_capped text_to_NaN no_primitive 0 (Closure true (Some 0))
              (msg_drop (VNum (Fin 2))) [] 0 lobby lobby
              (sent_by [EvMessage 0 (Parsed (msg_drop (VNum (Fin 2)))) [] 0] lobby)
              1 (PGroundDrop (lit "4fzyo82m") (lit "Alice") (Fin 3) (Fin 4)
                             (VStr (lit "ore")) (Fin 2))
              eq_refl eq_refl eq_refl)
    as (i & nm & gx & gz & item & q & Heq & _).
  - by vm_compute.
  - replace (sent_by [EvMessage 0 (Parsed (msg_drop (VNum (Fin 2)))) [] 0] lobby)
      with [Send 1 (PGroundDrop (lit "4fzyo82m") (lit "Alice") (Fin 3) (Fin 4)
                                (VStr (lit "ore")) (Fin 2))]
      by (by vm_compute).
    by left.
  - injection Heq as <- <- <- <- _ <-.
    exists (lit "4fzyo82m"), (lit "Alice"), (Fin 3), (Fin 4), (Fin 2). by vm_compute.
Defined.

Lemma genId_witness :
  genId (lit "0.4fzyo82mvyr") = genId (lit "0.4fzyo82mzzzzz")
  ∧ length (genId (lit "0.i")) = 1.
Proof.
  destruct (genId_reads_eight_digits (lit "0.4fzyo82mvyr") (lit "0.4fzyo82mzzzzz"))
    as (_ & Hsame).
  destruct (genId_reads_eight_digits (lit "0.i") []) as (Hlen & _).
  split; [apply Hsame; reflexivity|]. rewrite Hlen. reflexivity.
Defined.

Lemma broadcast_witness :
  NoDup (broadcast lobby PPing (Some 0))
  ∧ Send 1 PPing ∈ broadcast lobby PPing (Some 0)
  ∧ (Send 0 PPing ∉ broadcast lobby PPing (Some 0)).
Proof.
  destruct (broadcast_reaches_each_once lobby PPing (Some 0) lobby_wf)
    as (Hnd & _ & Hiff).
  split; [exact Hnd|]. split.
  - apply Hiff. exists 1. split; [reflexivity|]. split; [|split].
    + apply (bool_decide_unpack (1 ∈ keys lobby)). by vm_compute.
    + discriminate.
    + by vm_compute.
  - intros (w & Heq & _ & Hex & _)%Hiff. injection Heq as <-. by apply Hex.
Defined.

Lemma full_server_witness :
  length (players full_house) = 20
  ∧ sent_by [EvConnection] full_house
    = [Send 20 (PError (lit "Server full")); Close 20]
  ∧ (20 ∉ keys (state_after (full_house_events
                               ++ [EvConnection;
                                   EvMessage 20 (msg_join "Late") (lit "0.late") 9])))
  ∧ sent_by [EvMessage 20 (msg_join "Late") (lit "0.late") 9]
            (state_after (full_house_events ++ [EvConnection]))
    = [].
Proof.
  destruct (full_server_turns_away text_to_NaN no_primitive full_house
              (state_after (full_house_events ++ [EvConnection]))
              (sent_by [EvConnection] full_house)
              [EvMessage 20 (msg_join "Late") (lit "0.late") 9]
              (state_after (full_house_events
                              ++ [EvConnection;
                                  EvMessage 20 (msg_join "Late") (lit "0.late") 9]))
              []
              (state_after_wf _))
    as (Hout & _ & Hnever & _).
  - apply Nat.leb_le. by vm_compute.
  - by vm_compute.
  - by vm_compute.
  - split; [by vm_compute|]. split; [exact Hout|]. split; [|by vm_compute].
    change (length (sockets full_house)) with 20 in Hnever. exact Hnever.
Defined.
